(** * llm-viz: confidence metrics, point filter, picker and response store

    A shallow embedding of the analytic core of the visualisation:
    - [src/utils/confidenceMetrics.ts]  (module [Metrics]),
    - the [filteredData] memo and the pointer pickers of
      [components/EmbeddingVisualization.tsx] (modules [Filter], [Picker]),
    - the IndexedDB wrapper [src/utils/responseDB.ts] (module [ResponseDB]).

    Numbers.  A JavaScript [number] is an IEEE double.  The embedding works
    in exact arithmetic over the rationals [Q]: every finite double is a
    rational, [+ - * /] are the exact field operations, and rounding,
    overflow, signed zeros and NaN are outside the model.  Where the source
    can divide by zero the theorems carry the side condition that excludes
    it.  Equality of numbers ([===]) is [Qeq] (the decidable [Qeq_bool]). *)

From Stdlib Require Import ZArith QArith Qround Qminmax Lqa Lia List Sorted Permutation.
From stdpp Require Import base option list gmap strings.

Import ListNotations.

(** Boolean comparisons of numbers, as the source's [<] and [===]. *)
Definition Qltb (a b : Q) : bool := negb (Qle_bool b a).

Lemma Qltb_lt a b : Qltb a b = true <-> (a < b)%Q.
Proof.
  unfold Qltb. rewrite negb_true_iff. split.
  - intros H. apply Qnot_le_lt. intros Hle.
    apply Qle_bool_iff in Hle. congruence.
  - intros H. destruct (Qle_bool b a) eqn:E; [|reflexivity].
    apply Qle_bool_iff in E. exfalso. apply (Qlt_not_le _ _ H E).
Qed.

Lemma Qltb_ge a b : Qltb a b = false <-> (b <= a)%Q.
Proof.
  unfold Qltb. rewrite negb_false_iff. apply Qle_bool_iff.
Qed.

(* ===================================================================== *)
(** ** confidenceMetrics.ts *)
(* ===================================================================== *)

Module Metrics.

Local Open Scope Q_scope.

(** [Math.LN2]: the double nearest to ln 2, 0x3FE62E42FEFA39EF, which is the
    rational 6243314768165359 / 2^53. *)
Definition LN2 : Q := 6243314768165359 # 9007199254740992.


(** [computeSurprisal(logprob) = -logprob / Math.LN2]. *)
Definition computeSurprisal (logprob : Q) : Q := - logprob / LN2.

(** [Math.min(a, b)] and [Math.max(a, b)] on two numbers. *)
Definition Math_min2 (a b : Q) : Q := if Qle_bool a b then a else b.
Definition Math_max2 (a b : Q) : Q := if Qle_bool a b then b else a.


(** [computeConfidence(surprisal, maxSurprisal)]. *)
Definition computeConfidence (surprisal maxSurprisal : Q) : Q :=
  let clampedSurprisal := Math_min2 surprisal maxSurprisal in
  1 - clampedSurprisal / maxSurprisal.

(** [computeGap(logprob, logprob2)]. *)
Definition computeGap (logprob logprob2 : Q) : Q := logprob - logprob2.

(** [Math.min(...values)] and [Math.max(...values)].  On the empty array the
    source gets [Infinity] and [-Infinity]; the model answers [None] there. *)
Definition Math_min (values : list Q) : option Q :=
  match values with
  | [] => None
  | v :: rest => Some (fold_left Math_min2 rest v)
  end.

Definition Math_max (values : list Q) : option Q :=
  match values with
  | [] => None
  | v :: rest => Some (fold_left Math_max2 rest v)
  end.

(** [normalizeLocal(values)].  With no value at all, [max] is [-Infinity] and
    [min] is [Infinity], the test [max === min] fails and the second [map]
    runs over the empty array. *)
Definition normalizeLocal (values : list Q) : list Q :=
  match Math_min values, Math_max values with
  | Some min, Some max =>
      if Qeq_bool max min then map (fun _ => 0.5) values
      else map (fun v => (v - min) / (max - min)) values
  | _, _ => []
  end.

(** [normalizeGlobal(values, p5, p95)]. *)
Definition normalizeGlobal (values : list Q) (p5 p95 : Q) : list Q :=
  let range := p95 - p5 in
  if Qeq_bool range 0 then map (fun _ => 0.5) values
  else map (fun v =>
              let normalized := (v - p5) / range in
              Math_max2 0 (Math_min2 1 normalized)) values.

Record TokenMetrics := {
  token : string;
  confidence : Q;
  logprob : Q;
  logprob2 : Q;
  surprisal : Q;
  confidenceScore : Q;
  gap : Q;
  normalizedSurprisal : Q;
  normalizedConfidence : Q;
  normalizedGap : Q
}.

Record GlobalStats := {
  surprisal_p5 : Q;
  surprisal_p95 : Q;
  gap_p5 : Q;
  gap_p95 : Q
}.

Inductive NormalizationMode := local | global.
Inductive MetricType := metric_surprisal | metric_gap | metric_confidence.

(** What a call of [computeTokenMetrics] does: it returns the array of
    records, or throws, or (on arrays of unequal length) goes on with
    [undefined] and [NaN] in the fields, which the model reports as
    [NaNFields] without going further. *)
Inductive Outcome :=
| Returns (metrics : list TokenMetrics)
| Throws (message : string)
| NaNFields.

Section TokenMetrics.

(** [Math.exp], used for the field [confidence] only. *)
Variable Math_exp : Q -> Q.

(** The object literal built for token [i]; an index past the end of an
    array reads [undefined]. *)
Definition buildMetrics (logprobs logprobs2 surprisals confidenceScores gaps
    normalizedSurprisals normalizedConfidences normalizedGaps : list Q)
    (i : nat) (token : string) : option TokenMetrics :=
  lp ← logprobs !! i;
  lp2 ← logprobs2 !! i;
  s ← surprisals !! i;
  cs ← confidenceScores !! i;
  g ← gaps !! i;
  ns ← normalizedSurprisals !! i;
  nc ← normalizedConfidences !! i;
  ng ← normalizedGaps !! i;
  Some {| token := token; confidence := Math_exp lp; logprob := lp;
          logprob2 := lp2; surprisal := s; confidenceScore := cs; gap := g;
          normalizedSurprisal := ns; normalizedConfidence := nc;
          normalizedGap := ng |}.

Definition collect (l : list (option TokenMetrics)) : Outcome :=
  match mapM (fun o => o) l with
  | Some metrics => Returns metrics
  | None => NaNFields
  end.

(** [computeTokenMetrics(tokens, logprobs, logprobs2, mode, _metric,
    globalStats)]. *)
Definition computeTokenMetrics (tokens : list string)
    (logprobs logprobs2 : list Q) (mode : NormalizationMode)
    (_metric : MetricType) (globalStats : option GlobalStats) : Outcome :=
  let surprisals := map computeSurprisal logprobs in
  let gaps := imap (fun i lp => computeGap lp <$> logprobs2 !! i) logprobs in
  let maxSurprisal := Math_max surprisals in
  let confidenceScores :=
    match maxSurprisal with
    | Some maxSurprisal => map (fun s => computeConfidence s maxSurprisal) surprisals
    | None => []       (* no surprisal, nothing to map over *)
    end in
  match mode, globalStats with
  | global, None => Throws "Global stats required for global normalization"
  | _, _ =>
    match mapM (fun o => o) gaps with
    | None => NaNFields   (* some [logprobs2[i]] is [undefined] *)
    | Some gaps =>
      let normalized :=
        match mode, globalStats with
        | global, Some stats =>
            (normalizeGlobal surprisals (surprisal_p5 stats) (surprisal_p95 stats),
             normalizeGlobal gaps (gap_p5 stats) (gap_p95 stats),
             match maxSurprisal with
             | Some maxSurprisal =>
                 let confidenceP5 := computeConfidence (surprisal_p95 stats) maxSurprisal in
                 let confidenceP95 := computeConfidence (surprisal_p5 stats) maxSurprisal in
                 normalizeGlobal confidenceScores confidenceP5 confidenceP95
             | None => []
             end)
        | _, _ =>
            (normalizeLocal surprisals, normalizeLocal gaps,
             normalizeLocal confidenceScores)
        end in
      let normalizedSurprisals := fst (fst normalized) in
      let normalizedGaps := snd (fst normalized) in
      let normalizedConfidences := snd normalized in
      collect (imap (buildMetrics logprobs logprobs2 surprisals confidenceScores
                       gaps normalizedSurprisals normalizedConfidences
                       normalizedGaps) tokens)
    end
  end.

End TokenMetrics.

(** [[...values].sort((a, b) => a - b)]: an ascending, stable sort. *)
Fixpoint insert_sorted (v : Q) (sorted : list Q) : list Q :=
  match sorted with
  | [] => [v]
  | w :: rest => if Qle_bool v w then v :: w :: rest else w :: insert_sorted v rest
  end.

Fixpoint sort_ascending (values : list Q) : list Q :=
  match values with
  | [] => []
  | v :: rest => insert_sorted v (sort_ascending rest)
  end.

(** [sorted[index]] for an integral [index]: [undefined] ([None]) outside
    [0 .. length-1]. *)
Definition at_index (sorted : list Q) (index : Z) : option Q :=
  if (index <? 0)%Z then None else sorted !! Z.to_nat index.

(** [computePercentile(values, percentile)]. *)
Definition computePercentile (values : list Q) (percentile : Q) : option Q :=
  let sorted := sort_ascending values in
  let index := Qfloor (inject_Z (Z.of_nat (length sorted)) * percentile) in
  at_index sorted index.

(** *** Facts about [Math.min] and [Math.max] *)

Lemma Math_min2_spec a b :
  Math_min2 a b <= a /\ Math_min2 a b <= b /\ (Math_min2 a b = a \/ Math_min2 a b = b).
Proof.
  unfold Math_min2. destruct (Qle_bool a b) eqn:E.
  - apply Qle_bool_iff in E. repeat split; auto with qarith.
  - assert (b < a) by (apply Qltb_lt; unfold Qltb; now rewrite E).
    repeat split; auto with qarith.
Qed.

Lemma Math_max2_spec a b :
  a <= Math_max2 a b /\ b <= Math_max2 a b /\ (Math_max2 a b = a \/ Math_max2 a b = b).
Proof.
  unfold Math_max2. destruct (Qle_bool a b) eqn:E.
  - apply Qle_bool_iff in E. repeat split; auto with qarith.
  - assert (b < a) by (apply Qltb_lt; unfold Qltb; now rewrite E).
    repeat split; auto with qarith.
Qed.

Lemma fold_min_spec rest : forall v,
  let m := fold_left Math_min2 rest v in
  m <= v /\ (forall w, In w rest -> m <= w) /\ In m (v :: rest).
Proof.
  induction rest as [|w rest IH]; intros v; simpl.
  - repeat split; auto with qarith; intros ? [].
  - destruct (IH (Math_min2 v w)) as (H1 & H2 & H3).
    destruct (Math_min2_spec v w) as (Hv & Hw & Hc).
    repeat split.
    + eapply Qle_trans; eauto.
    + intros u [<-|Hu]; [eapply Qle_trans; eauto | auto].
    + destruct H3 as [H3|H3]; [|auto].
      rewrite <- H3. destruct Hc as [-> | ->]; auto.
Qed.

Lemma fold_max_spec rest : forall v,
  let m := fold_left Math_max2 rest v in
  v <= m /\ (forall w, In w rest -> w <= m) /\ In m (v :: rest).
Proof.
  induction rest as [|w rest IH]; intros v; simpl.
  - repeat split; auto with qarith; intros ? [].
  - destruct (IH (Math_max2 v w)) as (H1 & H2 & H3).
    destruct (Math_max2_spec v w) as (Hv & Hw & Hc).
    repeat split.
    + eapply Qle_trans; eauto.
    + intros u [<-|Hu]; [eapply Qle_trans; eauto | auto].
    + destruct H3 as [H3|H3]; [|auto].
      rewrite <- H3. destruct Hc as [-> | ->]; auto.
Qed.

Lemma Math_min_spec values m :
  Math_min values = Some m -> In m values /\ forall v, In v values -> m <= v.
Proof.
  destruct values as [|v rest]; [discriminate|]. simpl. intros [= <-].
  destruct (fold_min_spec rest v) as (H1 & H2 & H3).
  split; [exact H3|]. intros w [<-|Hw]; auto.
Qed.

Lemma Math_max_spec values m :
  Math_max values = Some m -> In m values /\ forall v, In v values -> v <= m.
Proof.
  destruct values as [|v rest]; [discriminate|]. simpl. intros [= <-].
  destruct (fold_max_spec rest v) as (H1 & H2 & H3).
  split; [exact H3|]. intros w [<-|Hw]; auto.
Qed.

Lemma Qdiv_le_compat a b c : 0 < c -> a <= b -> a / c <= b / c.
Proof.
  intros Hc Hab. unfold Qdiv. apply Qmult_le_compat_r; [exact Hab|].
  apply Qlt_le_weak, Qinv_lt_0_compat, Hc.
Qed.


Lemma Qdiv_unit_interval a c : 0 <= a -> a <= c -> 0 < c -> 0 <= a / c <= 1.
Proof.
  intros Ha Hac Hc. split.
  - apply Qle_shift_div_l; [exact Hc|]. lra.
  - apply Qle_shift_div_r; [exact Hc|]. lra.
Qed.

(** *** Surprisal and confidence *)



Lemma Math_min2_mono a b c : a <= b -> Math_min2 a c <= Math_min2 b c.
Proof.
  intros Hab.
  destruct (Math_min2_spec a c) as (Ha & Hc & _).
  destruct (Math_min2_spec b c) as (_ & _ & [E | E]); rewrite E.
  - now apply Qle_trans with a.
  - exact Hc.
Qed.

Lemma computeConfidence_antitone s1 s2 maxSurprisal :
  0 < maxSurprisal -> s2 <= s1 ->
  computeConfidence s1 maxSurprisal <= computeConfidence s2 maxSurprisal.
Proof.
  intros HM Hs. unfold computeConfidence. cbv zeta.
  pose proof (Qdiv_le_compat _ _ _ HM (Math_min2_mono s2 s1 maxSurprisal Hs)).
  lra.
Qed.




(** *** Normalisation *)

Lemma normalizeLocal_length values :
  length (normalizeLocal values) = length values.
Proof.
  unfold normalizeLocal. destruct values as [|v rest]; [reflexivity|].
  cbn [Math_min Math_max]. destruct (Qeq_bool _ _); now rewrite length_map.
Qed.

Lemma normalizeGlobal_length values p5 p95 :
  length (normalizeGlobal values p5 p95) = length values.
Proof.
  unfold normalizeGlobal. cbv zeta.
  destruct (Qeq_bool _ _); now rewrite length_map.
Qed.





Lemma normalizeGlobal_degenerate values p5 p95 :
  p95 == p5 -> normalizeGlobal values p5 p95 = map (fun _ => 0.5) values.
Proof.
  intros E. unfold normalizeGlobal. cbv zeta.
  assert (p95 - p5 == 0) as E0 by lra.
  apply Qeq_bool_iff in E0. now rewrite E0.
Qed.



(** *** Percentiles *)

Lemma insert_sorted_perm v sorted : Permutation (insert_sorted v sorted) (v :: sorted).
Proof.
  induction sorted as [|w rest IH]; simpl; [reflexivity|].
  destruct (Qle_bool v w); [reflexivity|].
  rewrite IH. apply perm_swap.
Qed.

Lemma sort_ascending_perm values : Permutation (sort_ascending values) values.
Proof.
  induction values as [|v rest IH]; simpl; [reflexivity|].
  rewrite insert_sorted_perm. now apply perm_skip.
Qed.

Lemma sort_ascending_length values : length (sort_ascending values) = length values.
Proof. apply Permutation_length, sort_ascending_perm. Qed.

Lemma insert_sorted_sorted v sorted :
  StronglySorted Qle sorted -> StronglySorted Qle (insert_sorted v sorted).
Proof.
  induction 1 as [|w rest Hrest IH Hw]; simpl.
  - constructor; constructor.
  - destruct (Qle_bool v w) eqn:E.
    + apply Qle_bool_iff in E. constructor; [now constructor|].
      constructor; [exact E|].
      eapply List.Forall_impl; [|exact Hw]. intros u Hu. now apply Qle_trans with w.
    + assert (w <= v) by (apply Qlt_le_weak, Qltb_lt; unfold Qltb; now rewrite E).
      constructor; [exact IH|].
      eapply Permutation_Forall; [symmetry; apply insert_sorted_perm|].
      now constructor.
Qed.

Lemma sort_ascending_sorted values : StronglySorted Qle (sort_ascending values).
Proof.
  induction values as [|v rest IH]; simpl; [constructor|].
  now apply insert_sorted_sorted.
Qed.


Lemma percentile_index_bounds (n : nat) (p : Q) :
  (0 < n)%nat -> 0 <= p -> p < 1 ->
  (0 <= Qfloor (inject_Z (Z.of_nat n) * p) < Z.of_nat n)%Z.
Proof.
  intros Hn Hp0 Hp1.
  assert (0 < inject_Z (Z.of_nat n)) as HnQ.
  { change 0 with (inject_Z 0). rewrite <- Zlt_Qlt. lia. }
  split.
  - change 0%Z with (Qfloor 0). apply Qfloor_resp_le. nra.
  - rewrite Zlt_Qlt.
    apply Qle_lt_trans with (inject_Z (Z.of_nat n) * p); [apply Qfloor_le|]. nra.
Qed.

(** C10.  On a non-empty sequence and for [0 <= p < 1] the index
    [floor(n * p)] is within bounds and [computePercentile] returns an
    element of the input; at [p = 1] the index is the length and nothing is
    found. *)
Theorem computePercentile_in_bounds (values : list Q) (p : Q) :
  (values <> [] -> 0 <= p -> p < 1 ->
   exists v, computePercentile values p = Some v /\ In v values) /\
  Qfloor (inject_Z (Z.of_nat (length values)) * 1) = Z.of_nat (length values) /\
  computePercentile values 1 = None.
Proof.
  split; [|split].
  - intros Hne Hp0 Hp1. unfold computePercentile, at_index. cbv zeta.
    rewrite sort_ascending_length.
    assert (0 < length values)%nat as Hn by (destruct values; simpl; [congruence | lia]).
    destruct (percentile_index_bounds _ _ Hn Hp0 Hp1) as [Hlo Hhi].
    set (index := Qfloor _) in *.
    destruct (Z.ltb_spec index 0) as [|_]; [lia|].
    destruct (lookup_lt_is_Some_2 (sort_ascending values) (Z.to_nat index)) as [v Hv].
    { rewrite sort_ascending_length. lia. }
    exists v. split; [exact Hv|].
    apply (Permutation_in _ (sort_ascending_perm values)).
    apply list_elem_of_In. eapply list_elem_of_lookup_2, Hv.
  - rewrite Qmult_1_r. apply Qfloor_Z.
  - unfold computePercentile, at_index. cbv zeta.
    rewrite sort_ascending_length.
    assert (Qfloor (inject_Z (Z.of_nat (length values)) * 1) = Z.of_nat (length values)) as ->
      by (rewrite Qmult_1_r; apply Qfloor_Z).
    destruct (Z.ltb_spec (Z.of_nat (length values)) 0) as [|_]; [reflexivity|].
    apply lookup_ge_None_2. rewrite sort_ascending_length. lia.
Qed.

Lemma computePercentile_in_bounds_witness :
  (exists v, computePercentile [5; 1; 4; 2; 3] 0.4 = Some v /\ In v [5; 1; 4; 2; 3]) /\
  computePercentile [5; 1; 4; 2; 3] 1 = None.
Proof.
  destruct (computePercentile_in_bounds [5; 1; 4; 2; 3] 0.4) as (Hin & _ & Hout).
  destruct (computePercentile_in_bounds [5; 1; 4; 2; 3] 1) as (_ & _ & Hone).
  split; [|exact Hone].
  apply Hin; [discriminate | discriminate | reflexivity].
Defined.

(** *** Token metrics *)

Lemma lookup_map {A B} (f : A -> B) (l : list A) (i : nat) :
  map f l !! i = f <$> l !! i.
Proof.
  revert i. induction l as [|a l IH]; intros [|i]; simpl; auto.
Qed.

Lemma collect_Returns (f : nat -> string -> option TokenMetrics) tokens ms :
  collect (imap f tokens) = Returns ms ->
  length ms = length tokens /\
  forall i m, ms !! i = Some m -> exists tok, tokens !! i = Some tok /\ f i tok = Some m.
Proof.
  unfold collect. destruct (mapM _ _) as [ms'|] eqn:E; [|discriminate].
  intros [= ->]. apply mapM_Some in E. split.
  - apply Forall2_length in E. now rewrite length_imap in E.
  - intros i m Hm. destruct (Forall2_lookup_r _ _ _ _ _ E Hm) as (o & Ho & ->).
    rewrite list_lookup_imap in Ho.
    destruct (tokens !! i) as [tok|]; [|discriminate].
    exists tok. split; [reflexivity|]. now injection Ho as ->.
Qed.






End Metrics.


(* ===================================================================== *)
(** ** EmbeddingVisualization.tsx: the visible subset *)
(* ===================================================================== *)

Module Filter.

Local Open Scope Q_scope.

(** [interface DataPoint]; the optional fields are absent ([undefined]) when
    [None]. *)
Record DataPoint := {
  x : Q;
  y : Q;
  cluster : Z;
  id : Z;
  question : string;
  isCorrect : option Z;
  avgConfidence : option Q
}.

(** [type CorrectnessFilterType = "all" | "correct" | "incorrect"]. *)
Inductive CorrectnessFilterType := all | correct | incorrect.

Definition is_correct (f : CorrectnessFilterType) : bool :=
  match f with correct => true | _ => false end.
Definition is_incorrect (f : CorrectnessFilterType) : bool :=
  match f with incorrect => true | _ => false end.

(** [d.isCorrect !== n]: an absent field is [undefined], which differs from
    every number. *)
Definition isCorrect_differs (d : DataPoint) (n : Z) : bool :=
  match isCorrect d with
  | Some v => negb (v =? n)%Z
  | None => true
  end.

(** The callback of [data.filter(...)] in the [useMemo] that computes
    [filteredData], with its early returns in the order of the source. *)
Definition keepPoint (activeClusters : gset Z)
    (correctnessFilter : CorrectnessFilterType) (confidenceRange : Q * Q)
    (d : DataPoint) : bool :=
  (* Filter by cluster *)
  if negb (bool_decide (cluster d ∈ activeClusters)) then false
  (* Filter by confidence *)
  else if match avgConfidence d with
          | Some c => Qltb c (fst confidenceRange) || Qltb (snd confidenceRange) c
          | None => false
          end then false
  (* Filter by correctness *)
  else if is_correct correctnessFilter && isCorrect_differs d 1 then false
  else if is_incorrect correctnessFilter && isCorrect_differs d 0 then false
  else true.

Definition filteredData (data : list DataPoint) (activeClusters : gset Z)
    (correctnessFilter : CorrectnessFilterType) (confidenceRange : Q * Q)
    : list DataPoint :=
  List.filter (keepPoint activeClusters correctnessFilter confidenceRange) data.

(** The three predicates of the filter state, each on its own. *)
Definition passesCluster (activeClusters : gset Z) (d : DataPoint) : Prop :=
  cluster d ∈ activeClusters.

Definition passesCorrectness (f : CorrectnessFilterType) (d : DataPoint) : Prop :=
  match f with
  | all => True
  | correct => isCorrect d = Some 1%Z
  | incorrect => isCorrect d = Some 0%Z
  end.

Definition passesConfidence (confidenceRange : Q * Q) (d : DataPoint) : Prop :=
  match avgConfidence d with
  | Some c => fst confidenceRange <= c <= snd confidenceRange
  | None => True
  end.

Lemma isCorrect_differs_false d n :
  isCorrect_differs d n = false <-> isCorrect d = Some n.
Proof.
  unfold isCorrect_differs. destruct (isCorrect d) as [v|]; [|split; discriminate].
  rewrite negb_false_iff, Z.eqb_eq. split; congruence.
Qed.

(** The two correctness tests, once the cluster and the range are passed. *)
Local Ltac correctness_cases d :=
  match goal with
  | |- context [isCorrect_differs d ?n] =>
      let E := fresh "E" in
      destruct (isCorrect_differs d n) eqn:E;
      [ split; [discriminate|]; intros (_ & H & _);
        apply isCorrect_differs_false in H; congruence
      | apply isCorrect_differs_false in E; tauto ]
  | _ => tauto
  end.

Lemma keepPoint_spec activeClusters f range d :
  keepPoint activeClusters f range d = true <->
  passesCluster activeClusters d /\ passesCorrectness f d /\ passesConfidence range d.
Proof.
  unfold keepPoint, passesCluster, passesCorrectness, passesConfidence.
  destruct (bool_decide_reflect (cluster d ∈ activeClusters)) as [Hc|Hc]; simpl;
    [|split; [discriminate | tauto]].
  destruct (avgConfidence d) as [c|].
  - destruct (Qltb c (fst range)) eqn:Elo; simpl.
    { apply Qltb_lt in Elo. split; [discriminate|]. intros (_ & _ & Hlo & _). lra. }
    destruct (Qltb (snd range) c) eqn:Ehi; simpl.
    { apply Qltb_lt in Ehi. split; [discriminate|]. intros (_ & _ & _ & Hhi). lra. }
    apply Qltb_ge in Elo, Ehi.
    destruct f; simpl; correctness_cases d.
  - destruct f; simpl; correctness_cases d.
Qed.

(** C2, as the code has it.  A point is visible exactly when it is in the
    data and passes the cluster, the correctness and the confidence-range
    predicate together.  A point without [avgConfidence] passes the
    confidence predicate for every range; a point without [isCorrect] passes
    the correctness predicate under ["all"] only. *)
Theorem filteredData_conjunction (data : list DataPoint) (activeClusters : gset Z)
    (f : CorrectnessFilterType) (range : Q * Q) (d : DataPoint) :
  (In d (filteredData data activeClusters f range) <->
   In d data /\ passesCluster activeClusters d /\ passesCorrectness f d /\
   passesConfidence range d) /\
  (avgConfidence d = None -> passesConfidence range d) /\
  (isCorrect d = None -> (passesCorrectness f d <-> f = all)).
Proof.
  split; [|split].
  - unfold filteredData. rewrite filter_In, keepPoint_spec. tauto.
  - unfold passesConfidence. now intros ->.
  - unfold passesCorrectness. intros ->. destruct f; split; try congruence; auto.
Qed.

(** The point of the example of the specification, but with no [isCorrect]. *)
Definition unscored : DataPoint :=
  {| x := 0; y := 0; cluster := 3; id := 7; question := "";
     isCorrect := None; avgConfidence := Some 0.9 |}.

Lemma filteredData_conjunction_witness :
  In unscored (filteredData [unscored] {[ 3%Z ]} all (0, 1)) /\
  passesConfidence (0.95, 1) {| x := 0; y := 0; cluster := 3; id := 8; question := "";
                                isCorrect := Some 1%Z; avgConfidence := None |} /\
  (passesCorrectness correct unscored <-> correct = all).
Proof.
  split; [|split].
  - apply (filteredData_conjunction [unscored] {[ 3%Z ]} all (0, 1) unscored).
    repeat split; try discriminate; try (now left);
      apply elem_of_singleton_2; reflexivity.
  - now apply (filteredData_conjunction [] ∅ all (0.95, 1)).
  - now apply (filteredData_conjunction [] ∅ correct (0, 1) unscored).
Defined.

(** C2, as stated, fails.  A point without [isCorrect] whose cluster is
    active and whose confidence is in range is shown under ["all"] and
    hidden under ["correct"] and under ["incorrect"]. *)
Lemma absent_isCorrect_is_filtered_out :
  isCorrect unscored = None /\
  filteredData [unscored] {[ 3%Z ]} all (0, 1) = [unscored] /\
  filteredData [unscored] {[ 3%Z ]} correct (0, 1) = [] /\
  filteredData [unscored] {[ 3%Z ]} incorrect (0, 1) = [].
Proof. repeat split; vm_compute; reflexivity. Qed.

End Filter.

(* ===================================================================== *)
(** ** EmbeddingVisualization: the pointer picker *)
(* ===================================================================== *)

Module Picker.

Import Filter.
Local Open Scope Q_scope.

(** A [d3.ZoomTransform]: [applyX(v) = v * k + x], [applyY(v) = v * k + y]. *)
Record ZoomTransform := { k : Q; tx : Q; ty : Q }.

Definition applyX (t : ZoomTransform) (v : Q) : Q := v * k t + tx t.
Definition applyY (t : ZoomTransform) (v : Q) : Q := v * k t + ty t.

(** [transform.applyX(xScale(d.x))] and [transform.applyY(yScale(d.y))]: the
    pixel where a point is drawn.  The scales are [d3.scaleLinear] objects,
    here any functions. *)
Definition screenX (xScale : Q -> Q) (transform : ZoomTransform) (d : DataPoint) : Q :=
  applyX transform (xScale (x d)).
Definition screenY (yScale : Q -> Q) (transform : ZoomTransform) (d : DataPoint) : Q :=
  applyY transform (yScale (y d)).

Section Scan.

(** Where a point is on screen ([cx], [cy]) and where the pointer is. *)
Variables cxOf cyOf : DataPoint -> Q.
Variables mx my : Q.

(** [(cx - mx) ** 2 + (cy - my) ** 2], the square of [dist].  The source
    takes [Math.sqrt] of it and compares distances; the square root is
    strictly increasing on non-negative numbers, so the comparisons
    [dist < minDist] are those of the squares, and the model keeps
    [minDist] squared to stay within the rationals. *)
Definition distSq (d : DataPoint) : Q :=
  let cx := cxOf d in
  let cy := cyOf d in
  (cx - mx) * (cx - mx) + (cy - my) * (cy - my).

(** One turn of [for (const d of filteredData)]; the state is
    [(nearest, minDist squared)]. *)
Definition scan (state : option DataPoint * Q) (d : DataPoint)
    : option DataPoint * Q :=
  let '(nearest, minDistSq) := state in
  if Qltb (distSq d) minDistSq then (Some d, distSq d) else (nearest, minDistSq).

(** The loop, started with [nearest = null] and [minDist = radius]. *)
Definition nearestWithin (radius : Q) (filteredData : list DataPoint)
    : option DataPoint :=
  fst (fold_left scan filteredData (None, radius * radius)).

(** What the loop has established after the points [seen]. *)
Definition scanned (radiusSq : Q) (seen : list DataPoint)
    (state : option DataPoint * Q) : Prop :=
  match fst state with
  | Some d =>
      snd state = distSq d /\ distSq d < radiusSq /\
      exists i, seen !! i = Some d /\
        (forall d', In d' seen -> distSq d <= distSq d') /\
        (forall j d', (j < i)%nat -> seen !! j = Some d' -> distSq d < distSq d')
  | None =>
      snd state = radiusSq /\ forall d', In d' seen -> radiusSq <= distSq d'
  end.

Lemma lookup_In (seen : list DataPoint) j d : seen !! j = Some d -> In d seen.
Proof.
  intros H. apply list_elem_of_In. eapply list_elem_of_lookup_2, H.
Qed.

Lemma scanned_step radiusSq seen state d :
  scanned radiusSq seen state -> scanned radiusSq (seen ++ [d]) (scan state d).
Proof.
  destruct state as [[best|] m]; unfold scanned, scan; simpl.
  - intros (-> & Hlt & i & Hi & Hmin & Hfirst).
    destruct (Qltb (distSq d) (distSq best)) eqn:E; simpl.
    + apply Qltb_lt in E. split; [reflexivity|]. split; [lra|].
      exists (length seen). split; [|split].
      * now rewrite lookup_app_r, Nat.sub_diag by lia.
      * intros d' Hd'. apply in_app_iff in Hd' as [Hd'|[<-|[]]]; [|lra].
        specialize (Hmin d' Hd'). lra.
      * intros j d' Hj Hd'. rewrite lookup_app_l in Hd' by exact Hj.
        specialize (Hmin d' (lookup_In _ _ _ Hd')). lra.
    + apply Qltb_ge in E. split; [reflexivity|]. split; [exact Hlt|].
      exists i. split; [|split].
      * rewrite lookup_app_l; [exact Hi|]. eapply lookup_lt_Some, Hi.
      * intros d' Hd'. apply in_app_iff in Hd' as [Hd'|[<-|[]]]; auto.
      * intros j d' Hj Hd'. apply (Hfirst j d' Hj).
        rewrite lookup_app_l in Hd'; [exact Hd'|].
        apply lookup_lt_Some in Hi. lia.
  - intros (-> & Hall).
    destruct (Qltb (distSq d) radiusSq) eqn:E; simpl.
    + apply Qltb_lt in E. split; [reflexivity|]. split; [exact E|].
      exists (length seen). split; [|split].
      * now rewrite lookup_app_r, Nat.sub_diag by lia.
      * intros d' Hd'. apply in_app_iff in Hd' as [Hd'|[<-|[]]]; [|lra].
        specialize (Hall d' Hd'). lra.
      * intros j d' Hj Hd'. rewrite lookup_app_l in Hd' by exact Hj.
        specialize (Hall d' (lookup_In _ _ _ Hd')). lra.
    + apply Qltb_ge in E. split; [reflexivity|].
      intros d' Hd'. apply in_app_iff in Hd' as [Hd'|[<-|[]]]; auto.
Qed.

Lemma scanned_fold radiusSq todo : forall seen state,
  scanned radiusSq seen state ->
  scanned radiusSq (seen ++ todo) (fold_left scan todo state).
Proof.
  induction todo as [|d todo IH]; intros seen state H; simpl.
  - now rewrite app_nil_r.
  - replace (seen ++ d :: todo) with ((seen ++ [d]) ++ todo)
      by (now rewrite <- app_assoc).
    apply IH, scanned_step, H.
Qed.

(** The result of the loop: the first of the nearest points if it is
    strictly within the radius, nothing if every point is at the radius or
    beyond. *)
Lemma nearestWithin_spec radius filteredData :
  match nearestWithin radius filteredData with
  | Some d =>
      distSq d < radius * radius /\
      exists i, filteredData !! i = Some d /\
        (forall d', In d' filteredData -> distSq d <= distSq d') /\
        (forall j d', (j < i)%nat -> filteredData !! j = Some d' ->
                      distSq d < distSq d')
  | None =>
      forall d', In d' filteredData -> radius * radius <= distSq d'
  end.
Proof.
  unfold nearestWithin.
  assert (scanned (radius * radius) filteredData
            (fold_left scan filteredData (None, radius * radius))) as H.
  { apply (scanned_fold _ filteredData [] (None, radius * radius)).
    split; [reflexivity|]. intros ? []. }
  unfold scanned in H.
  destruct (fst (fold_left scan filteredData (None, radius * radius))); tauto.
Qed.

End Scan.




(** Squared distance on screen between a point and the pointer. *)
Definition screenDistSq (xScale yScale : Q -> Q) (transform : ZoomTransform)
    (mx my : Q) (d : DataPoint) : Q :=
  distSq (screenX xScale transform) (screenY yScale transform) mx my d.


(** The current component asks [d3.quadtree] instead of scanning:
    [quadtree.find(mx, my, 15)] over the screen positions of the filtered
    points.  d3-quadtree is a dependency of the application, not part of
    it: [find] is a parameter, taken to do what its documentation says
    (the closest datum within the radius, or nothing). *)
Section Quadtree.

Definition finds_closest
    (find : (DataPoint -> Q) -> (DataPoint -> Q) -> list DataPoint ->
            Q -> Q -> Q -> option DataPoint) : Prop :=
  forall cxOf cyOf points mx my radius,
    match find cxOf cyOf points mx my radius with
    | Some d =>
        In d points /\ distSq cxOf cyOf mx my d < radius * radius /\
        forall d', In d' points -> distSq cxOf cyOf mx my d <= distSq cxOf cyOf mx my d'
    | None =>
        forall d', In d' points -> radius * radius <= distSq cxOf cyOf mx my d'
    end.

Variable quadtree_find :
  (DataPoint -> Q) -> (DataPoint -> Q) -> list DataPoint -> Q -> Q -> Q ->
  option DataPoint.
Hypothesis quadtree_find_closest : finds_closest quadtree_find.

Definition handleMouseMove_quadtree (xScale yScale : Q -> Q)
    (transform : ZoomTransform) (mx my : Q) (filteredData : list DataPoint)
    : option DataPoint :=
  quadtree_find (screenX xScale transform) (screenY yScale transform)
    filteredData mx my 15.

Lemma handleMouseMove_quadtree_nearest xScale yScale transform mx my filteredData :
  let dist2 := screenDistSq xScale yScale transform mx my in
  match handleMouseMove_quadtree xScale yScale transform mx my filteredData with
  | Some d =>
      In d filteredData /\ dist2 d < 15 * 15 /\
      forall d', In d' filteredData -> dist2 d <= dist2 d'
  | None => forall d', In d' filteredData -> 15 * 15 <= dist2 d'
  end.
Proof. apply quadtree_find_closest. Qed.

End Quadtree.

(** The scan of the earlier component is one such [find]. *)
Lemma scan_finds_closest :
  finds_closest (fun cxOf cyOf points mx my radius =>
                   nearestWithin cxOf cyOf mx my radius points).
Proof.
  intros cxOf cyOf points mx my radius.
  pose proof (nearestWithin_spec cxOf cyOf mx my radius points) as H.
  destruct (nearestWithin cxOf cyOf mx my radius points) as [d|]; [|exact H].
  destruct H as (Hlt & i & Hi & Hmin & _).
  split; [eapply lookup_In, Hi|]. split; assumption.
Qed.




End Picker.

(* ===================================================================== *)
(** ** responseDB.ts *)
(* ===================================================================== *)

(** The class [ResponseDB] over an event-loop model.  JavaScript runs one
    task at a time: a call of an [async] method runs to its first pending
    [await] and returns a promise; the rest runs in later turns, when what
    it waits for has settled.  The state of the world is the IndexedDB
    database, the fields of the singleton, the load operations started so
    far with the [await] each one is suspended at, and a log of what the
    code asked of its environment (fetches, puts, progress reports).  The
    browser's answers (does the open request succeed, what does [fetch]
    return, how does the transaction end) are the record [Browser]. *)
Module ResponseDB.

Definition DB_NAME : string := "GSM8K_Responses".
Definition DB_VERSION : Z := 2.
Definition STORE_NAME : string := "responses".

Module RD.
(** [interface ResponseData], with the short keys of the payload. *)
Record ResponseData := {
  i : Z;
  p : string;
  r : string;
  t : list string;
  c : list Q;
  lp : option (list Q);
  lp2 : option (list Q);
  g : option string;
  a : option string;
  x : option Z
}.
End RD.
Abbreviation ResponseData := RD.ResponseData.

(** The database [DB_NAME] as the browser keeps it: its version ([0] before
    it is first created) and the object store [STORE_NAME], keyed by the
    field [i], when it exists. *)
Record Database := {
  version : Z;
  responses : option (gmap Z ResponseData)
}.

(** What a promise is rejected with. *)
Inductive Thrown :=
| DOMException (name : string)
| Error (message : string).

Inductive Promise (A : Type) :=
| Pending
| Fulfilled (value : A)
| Rejected (reason : Thrown).
Arguments Pending {A}.
Arguments Fulfilled {A} value.
Arguments Rejected {A} reason.

(** A [fetch] response; [json = None] when the body does not parse. *)
Record Response := {
  ok : bool;
  statusText : string;
  json : option (list ResponseData)
}.

(** The event that ends a transaction, with [transaction.error] if set. *)
Inductive TransactionEnd :=
| oncomplete
| onerror (error : option string)
| onabort (error : option string).

Record Browser := {
  (** [Some name]: the open request fires [onerror] with that exception. *)
  open_request : option string;
  (** [None]: the request fails and [fetch] rejects. *)
  fetch : string -> option Response;
  transaction_end : TransactionEnd
}.

(** [request.onupgradeneeded]. *)
Definition onupgradeneeded (oldVersion : Z) (d : Database) : Database :=
  let stores :=
    if (oldVersion =? 1)%Z && (DB_VERSION =? 2)%Z
    then None                       (* deleteObjectStore, if it was there *)
    else responses d in
  let stores :=
    match stores with
    | None => Some ∅                (* createObjectStore *)
    | Some store => Some store
    end in
  {| version := DB_VERSION; responses := stores |}.

(** [indexedDB.open(DB_NAME, DB_VERSION)], when the request completes. *)
Definition indexedDB_open (browser : Browser) (d : Database) : Thrown + Database :=
  match open_request browser with
  | Some name => inl (DOMException name)
  | None =>
      if (DB_VERSION <? version d)%Z then inl (DOMException "VersionError")
      else if (version d <? DB_VERSION)%Z then inr (onupgradeneeded (version d) d)
      else inr d
  end.

Inductive IDBDatabase := connection.

(** Where a call of [_loadFromFileInternal] is suspended. *)
Inductive Stage :=
| AwaitInit                                 (* [await this.init()] *)
| AwaitCount                                (* [await this.count()] *)
| AwaitFetch                                (* [await fetch(url)] *)
| AwaitJson (response : Response)           (* [await response.json()] *)
| AwaitTransaction (data : list ResponseData)  (* the returned promise *)
| Settled (result : Promise unit).

Record Load := {
  url : string;
  onProgress : bool;       (* was a callback given? *)
  stage : Stage
}.

Inductive Event :=
| Fetch (url : string)
| Put (item : ResponseData)
| Progress (loaded total : nat) (fromCache : option bool).

Record World := {
  database : Database;
  db : option IDBDatabase;
  initPromise : option (Promise unit);
  (** [this.loadPromise], as the index of the load it is the promise of. *)
  loadPromise : option nat;
  loads : list Load;
  log : list Event
}.

(** A fresh page over the database [d]. *)
Definition page_load (d : Database) : World :=
  {| database := d; db := None; initPromise := None; loadPromise := None;
     loads := []; log := [] |}.

Definition with_initPromise (pr : option (Promise unit)) (w : World) : World :=
  {| database := database w; db := db w; initPromise := pr;
     loadPromise := loadPromise w; loads := loads w; log := log w |}.

Definition with_loadPromise (pr : option nat) (w : World) : World :=
  {| database := database w; db := db w; initPromise := initPromise w;
     loadPromise := pr; loads := loads w; log := log w |}.

Definition with_loads (l : list Load) (w : World) : World :=
  {| database := database w; db := db w; initPromise := initPromise w;
     loadPromise := loadPromise w; loads := l; log := log w |}.

Definition with_database (d : Database) (w : World) : World :=
  {| database := d; db := db w; initPromise := initPromise w;
     loadPromise := loadPromise w; loads := loads w; log := log w |}.

Definition opened (d : Database) (w : World) : World :=
  {| database := d; db := Some connection; initPromise := Some (Fulfilled ());
     loadPromise := loadPromise w; loads := loads w; log := log w |}.

Definition logged (events : list Event) (w : World) : World :=
  {| database := database w; db := db w; initPromise := initPromise w;
     loadPromise := loadPromise w; loads := loads w; log := log w ++ events |}.

(** [init()], the synchronous part: the open request is issued once. *)
Definition init (w : World) : World :=
  match db w, initPromise w with
  | Some _, _ => w
  | None, Some _ => w
  | None, None => with_initPromise (Some Pending) w
  end.

(** The promise [init()] returns. *)
Definition init_promise (w : World) : Promise unit :=
  match db w, initPromise w with
  | Some _, _ => Fulfilled ()
  | None, Some pr => pr
  | None, None => Pending
  end.

(** The open request completes: [onsuccess] or [onerror]. *)
Definition open_fires (browser : Browser) (w : World) : World :=
  match initPromise w with
  | Some Pending =>
      match indexedDB_open browser (database w) with
      | inr d => opened d w
      | inl e => with_initPromise (Some (Rejected e)) w
      end
  | _ => w
  end.

(** [await this.init()], run until the promise has settled. *)
Definition await_init (browser : Browser) (w : World) : Promise unit * World :=
  let w := open_fires browser (init w) in
  (init_promise w, w).

(** [count()]. *)
Definition count (browser : Browser) (w : World) : Promise nat * World :=
  let '(ready, w) := await_init browser w in
  match ready with
  | Pending => (Pending, w)
  | Rejected e => (Rejected e, w)           (* the [await] throws *)
  | Fulfilled _ =>
      match db w with
      | None => (Fulfilled 0%nat, w)        (* [if (!this.db) return 0] *)
      | Some _ =>
          match responses (database w) with
          | None => (Rejected (DOMException "NotFoundError"), w)
          | Some store => (Fulfilled (size store), w)
          end
      end
  end.

(** [get(id)]; [None] is [null]. *)
Definition get (browser : Browser) (id : Z) (w : World)
    : Promise (option ResponseData) * World :=
  let '(ready, w) := await_init browser w in
  match ready with
  | Pending => (Pending, w)
  | Rejected e => (Rejected e, w)
  | Fulfilled _ =>
      match db w with
      | None => (Rejected (Error "DB not initialized"), w)
      | Some _ =>
          match responses (database w) with
          | None => (Rejected (DOMException "NotFoundError"), w)
          | Some store => (Fulfilled (store !! id), w)
          end
      end
  end.

(** [clear()]. *)
Definition clear (browser : Browser) (w : World) : Promise unit * World :=
  let '(ready, w) := await_init browser w in
  match ready with
  | Pending => (Pending, w)
  | Rejected e => (Rejected e, w)
  | Fulfilled _ =>
      match db w with
      | None => (Fulfilled (), w)
      | Some _ =>
          match responses (database w) with
          | None => (Rejected (DOMException "NotFoundError"), w)
          | Some _ =>
              (Fulfilled (),
               with_loadPromise None
                 (with_database {| version := version (database w);
                                   responses := Some ∅ |} w))
          end
      end
  end.

(** The [for (const item of data)] loop: one put per item, and a report
    every 100 items. *)
Fixpoint put_all (onProgress : bool) (total : nat) (data : list ResponseData)
    (loaded : nat) : list Event :=
  match data with
  | [] => []
  | item :: rest =>
      let loaded := S loaded in
      Put item ::
      (if (loaded mod 100 =? 0)%nat && onProgress
       then [Progress loaded total None] else []) ++
      put_all onProgress total rest loaded
  end.

(** [store.put(item)]: insert, or overwrite the record of the same key. *)
Definition put (store : gmap Z ResponseData) (item : ResponseData)
    : gmap Z ResponseData :=
  <[RD.i item := item]> store.

(** The transaction commits. *)
Definition commit (data : list ResponseData) (w : World) : World :=
  match responses (database w) with
  | Some store =>
      with_database {| version := version (database w);
                       responses := Some (foldl put store data) |} w
  | None => w
  end.

Definition report (onProgress : bool) (e : Event) (w : World) : World :=
  if onProgress then logged [e] w else w.

Definition set_stage (n : nat) (op : Load) (s : Stage) (w : World) : World :=
  with_loads (<[n := {| url := url op; onProgress := onProgress op; stage := s |}]>
                (loads w)) w.

Definition transaction_error (error : option string) (message : string) : Thrown :=
  match error with
  | Some name => DOMException name
  | None => Error message
  end.

(** One turn of the load [n]: the code of [_loadFromFileInternal] from the
    [await] it is suspended at to the next one. *)
Definition advance_load (browser : Browser) (n : nat) (op : Load) (w : World) : World :=
  match stage op with
  | AwaitInit =>
      let w := open_fires browser w in
      match init_promise w with
      | Pending => w
      | Rejected e => set_stage n op (Settled (Rejected e)) w
      | Fulfilled _ =>
          match db w with
          | None => set_stage n op (Settled (Rejected (Error "DB not initialized"))) w
          | Some _ => set_stage n op AwaitCount w
          end
      end
  | AwaitCount =>
      let '(result, w) := count browser w in
      match result with
      | Pending => w
      | Rejected e => set_stage n op (Settled (Rejected e)) w
      | Fulfilled count =>
          if (0 <? count)%nat
          then set_stage n op (Settled (Fulfilled ()))
                 (report (onProgress op) (Progress count count (Some true)) w)
          else set_stage n op AwaitFetch (logged [Fetch (url op)] w)
      end
  | AwaitFetch =>
      match fetch browser (url op) with
      | None => set_stage n op (Settled (Rejected (Error "Failed to fetch"))) w
      | Some response =>
          if ok response then set_stage n op (AwaitJson response) w
          else set_stage n op
                 (Settled (Rejected (Error ("Failed to fetch: " ++ statusText response)))) w
      end
  | AwaitJson response =>
      match json response with
      | None => set_stage n op (Settled (Rejected (Error "Unexpected token"))) w
      | Some data =>
          match responses (database w) with
          | None => set_stage n op (Settled (Rejected (DOMException "NotFoundError"))) w
          | Some _ =>
              set_stage n op (AwaitTransaction data)
                (logged (put_all (onProgress op) (length data) data 0) w)
          end
      end
  | AwaitTransaction data =>
      match transaction_end browser with
      | oncomplete =>
          let total := length data in
          set_stage n op (Settled (Fulfilled ()))
            (report (onProgress op) (Progress total total None) (commit data w))
      | onerror e =>
          set_stage n op (Settled (Rejected (transaction_error e "Transaction failed"))) w
      | onabort e =>
          set_stage n op (Settled (Rejected (transaction_error e "Transaction aborted"))) w
      end
  | Settled _ => w
  end.

Definition advance (browser : Browser) (n : nat) (w : World) : World :=
  match loads w !! n with
  | Some op => advance_load browser n op w
  | None => w
  end.

(** [turns] turns of the load [n]. *)
Fixpoint run (browser : Browser) (n : nat) (turns : nat) (w : World) : World :=
  match turns with
  | O => w
  | S turns => run browser n turns (advance browser n w)
  end.

(** [loadFromFile(url, onProgress)]: the promise it returns, as the index of
    the load behind it.  A new load runs [_loadFromFileInternal] to its first
    [await], which calls [init()]. *)
Definition loadFromFile (url : string) (onProgress : bool) (w : World) : nat * World :=
  match loadPromise w with
  | Some n => (n, w)
  | None =>
      let w := init w in
      let n := length (loads w) in
      (n, with_loadPromise (Some n)
            (with_loads (loads w ++ [{| url := url; onProgress := onProgress;
                                        stage := AwaitInit |}]) w))
  end.

(** The state of the promise of load [n]. *)
Definition promise_of (n : nat) (w : World) : Promise unit :=
  match loads w !! n with
  | Some {| stage := Settled result |} => result
  | _ => Pending
  end.

Definition fetches (events : list Event) : list string :=
  omap (fun e => match e with Fetch u => Some u | _ => None end) events.

Definition puts (events : list Event) : list ResponseData :=
  omap (fun e => match e with Put item => Some item | _ => None end) events.

(** *** The store after a write pass *)

Lemma dom_put_all (data : list ResponseData) : forall store : gmap Z ResponseData,
  dom (foldl put store data) = dom store ∪ list_to_set (map RD.i data).
Proof.
  induction data as [|item rest IH]; intros store; simpl.
  - now rewrite union_empty_r_L.
  - rewrite IH. unfold put. rewrite dom_insert_L.
    apply set_eq. intros k. rewrite !elem_of_union. tauto.
Qed.

(** From an empty store, the number of records is the number of distinct
    ids of the payload. *)
Lemma size_put_all_empty (data : list ResponseData) :
  size (foldl put ∅ data) = length (remove_dups (map RD.i data)).
Proof.
  rewrite <- size_dom, dom_put_all, dom_empty_L.
  rewrite <- (size_list_to_set (C := gset Z) (remove_dups (map RD.i data)))
    by apply NoDup_remove_dups.
  f_equal. apply set_eq. intros k.
  rewrite elem_of_union, !elem_of_list_to_set, elem_of_remove_dups.
  rewrite elem_of_empty. tauto.
Qed.

Lemma fetches_put_all cb total data : forall loaded,
  fetches (put_all cb total data loaded) = [].
Proof.
  induction data as [|item rest IH]; intros loaded; simpl; [reflexivity|].
  unfold fetches in *. simpl. rewrite omap_app, IH.
  destruct (_ && _); reflexivity.
Qed.

Lemma puts_put_all cb total data : forall loaded,
  puts (put_all cb total data loaded) = data.
Proof.
  induction data as [|item rest IH]; intros loaded; simpl; [reflexivity|].
  unfold puts in *. simpl. rewrite omap_app, IH.
  destruct (_ && _); reflexivity.
Qed.

(** *** Opening, [get] and [clear] *)

(** A database left by version 1 of the application is emptied when it is
    opened: its records do not count as a cache. *)
Lemma open_version_1_wipes browser d :
  open_request browser = None -> version d = 1%Z ->
  indexedDB_open browser d = inr {| version := DB_VERSION; responses := Some ∅ |}.
Proof.
  intros Hreq Hv. unfold indexedDB_open, onupgradeneeded. now rewrite Hreq, Hv.
Qed.

(** A database of the current version is opened as it is. *)
Lemma open_current_version browser d :
  open_request browser = None -> version d = DB_VERSION ->
  indexedDB_open browser d = inr d.
Proof.
  intros Hreq Hv. unfold indexedDB_open. now rewrite Hreq, Hv.
Qed.

(** [get] on an open database is the lookup by key, [null] for a key that
    is not there. *)
Lemma get_lookup browser id (w : World) store :
  db w = Some connection -> initPromise w = Some (Fulfilled ()) ->
  responses (database w) = Some store ->
  get browser id w = (Fulfilled (store !! id), w).
Proof.
  intros Hdb Hinit Hstore.
  unfold get, await_init, open_fires, init, init_promise.
  rewrite Hdb, Hinit. cbn. now rewrite Hdb, Hstore.
Qed.

(** [clear] on an open database empties the store and forgets the load
    promise, so that a later [loadFromFile] starts a new load. *)
Lemma clear_resets browser (w : World) store :
  db w = Some connection -> initPromise w = Some (Fulfilled ()) ->
  responses (database w) = Some store ->
  fst (clear browser w) = Fulfilled () /\
  responses (database (snd (clear browser w))) = Some ∅ /\
  loadPromise (snd (clear browser w)) = None.
Proof.
  intros Hdb Hinit Hstore.
  unfold clear, await_init, open_fires, init, init_promise.
  rewrite Hdb, Hinit. cbn. now rewrite Hdb, Hstore.
Qed.

(** *** [count()] *)

(** What [count()] answers on a fresh page, whatever the database and the
    browser: the open error if the open request fails, the number of
    records otherwise. *)
Lemma count_page_load browser d :
  fst (count browser (page_load d)) =
  match indexedDB_open browser d with
  | inl e => Rejected e
  | inr d' =>
      match responses d' with
      | Some store => Fulfilled (size store)
      | None => Rejected (DOMException "NotFoundError")
      end
  end.
Proof.
  unfold count, await_init, open_fires, init, init_promise, page_load. simpl.
  destruct (indexedDB_open browser d) as [e|d']; simpl; [reflexivity|].
  destruct (responses d'); reflexivity.
Qed.

(** On a database that opens, [count()] is the number of stored records. *)
Lemma count_is_size browser d d' store :
  indexedDB_open browser d = inr d' -> responses d' = Some store ->
  fst (count browser (page_load d)) = Fulfilled (size store).
Proof.
  intros Hopen Hstore. now rewrite count_page_load, Hopen, Hstore.
Qed.

(** C3, the part that fails: when the open request fails with the exception
    [name], [await this.init()] throws and [count()] is rejected with it;
    the guard [if (!this.db) return 0] is not reached, and [0] is not
    returned.  The same holds for every later call. *)
Theorem count_rejects_when_open_fails (name : string)
    (fetch : string -> option Response) (tend : TransactionEnd) (d : Database) :
  let browser := {| open_request := Some name; fetch := fetch;
                    transaction_end := tend |} in
  let first := count browser (page_load d) in
  fst first = Rejected (DOMException name) /\
  fst first <> Fulfilled 0%nat /\
  db (snd first) = None /\
  fst (count browser (snd first)) = Rejected (DOMException name).
Proof.
  cbv zeta. repeat split. discriminate.
Qed.

(** *** Loads *)

Lemma advance_settled browser n w :
  promise_of n w <> Pending -> advance browser n w = w.
Proof.
  unfold promise_of, advance, advance_load.
  destruct (loads w !! n) as [[u cb st]|]; [|reflexivity].
  simpl. destruct st; congruence.
Qed.

Lemma run_settled browser n turns w :
  promise_of n w <> Pending -> run browser n turns w = w.
Proof.
  intros H. induction turns as [|turns IH]; simpl; [reflexivity|].
  now rewrite advance_settled.
Qed.

Lemma run_S browser n turns w :
  run browser n (S turns) w = run browser n turns (advance browser n w).
Proof. reflexivity. Qed.

Lemma run_add browser n a b w :
  run browser n (a + b) w = run browser n b (run browser n a w).
Proof.
  revert w. induction a as [|a IH]; intros w; simpl; [reflexivity|]. apply IH.
Qed.

(** A second call finds [this.loadPromise] set: it returns that promise and
    starts nothing. *)
Lemma loadFromFile_attaches url onProgress w n :
  loadPromise w = Some n -> loadFromFile url onProgress w = (n, w).
Proof. unfold loadFromFile. now intros ->. Qed.

Lemma loadPromise_open_fires browser w :
  loadPromise (open_fires browser w) = loadPromise w.
Proof.
  unfold open_fires. destruct (initPromise w) as [[| |]|]; try reflexivity.
  destruct (indexedDB_open _ _); reflexivity.
Qed.

Lemma loads_open_fires browser w : loads (open_fires browser w) = loads w.
Proof.
  unfold open_fires. destruct (initPromise w) as [[| |]|]; try reflexivity.
  destruct (indexedDB_open _ _); reflexivity.
Qed.

Lemma init_keeps w :
  loadPromise (init w) = loadPromise w /\ loads (init w) = loads w.
Proof.
  unfold init. destruct (db w), (initPromise w); split; reflexivity.
Qed.

Lemma count_keeps browser w :
  loadPromise (snd (count browser w)) = loadPromise w /\
  loads (snd (count browser w)) = loads w.
Proof.
  unfold count, await_init.
  destruct (init_keeps w) as [H1 H2].
  pose proof (loadPromise_open_fires browser (init w)) as H3.
  pose proof (loads_open_fires browser (init w)) as H4.
  destruct (init_promise _); simpl; [| |split; congruence..].
  - split; congruence.
  - destruct (db _); [destruct (responses _)|]; simpl; split; congruence.
Qed.

(** No turn of a load touches [this.loadPromise] or starts another load. *)
Lemma advance_keeps browser n w :
  loadPromise (advance browser n w) = loadPromise w /\
  length (loads (advance browser n w)) = length (loads w).
Proof.
  unfold advance. destruct (loads w !! n) as [op|]; [|split; reflexivity].
  unfold advance_load.
  destruct (stage op) as [| | |response|data|result].
  - pose proof (loadPromise_open_fires browser w) as H1.
    pose proof (loads_open_fires browser w) as H2.
    destruct (init_promise _); [| destruct (db _) |];
      unfold set_stage; simpl; rewrite ?length_insert; split; congruence.
  - destruct (count_keeps browser w) as [H1 H2].
    destruct (count browser w) as [[|k|e] w']; simpl in *.
    + split; congruence.
    + destruct (0 <? k)%nat; unfold set_stage, report, logged; simpl;
        [destruct (onProgress op)|]; simpl; rewrite ?length_insert; split; congruence.
    + unfold set_stage; simpl; rewrite ?length_insert; split; congruence.
  - destruct (fetch browser (url op)) as [response|]; [destruct (ok response)|];
      unfold set_stage; simpl; rewrite ?length_insert; split; congruence.
  - destruct (json response); [destruct (responses _)|];
      unfold set_stage; simpl; rewrite ?length_insert; split; congruence.
  - destruct (transaction_end browser); unfold set_stage, report, commit, logged;
      simpl; [destruct (onProgress op), (responses _)| |]; simpl;
      rewrite ?length_insert; split; congruence.
  - split; reflexivity.
Qed.

Lemma run_keeps browser n turns : forall w,
  loadPromise (run browser n turns w) = loadPromise w /\
  length (loads (run browser n turns w)) = length (loads w).
Proof.
  induction turns as [|turns IH]; intros w; simpl; [split; reflexivity|].
  destruct (IH (advance browser n w)) as [H1 H2].
  destruct (advance_keeps browser n w) as [H3 H4]. split; congruence.
Qed.

(** The turns of a load, one by one, on explicit worlds. *)

Lemma loadFromFile_first url cb d :
  loadFromFile url cb (page_load d) =
  (0%nat,
   {| database := d; db := None; initPromise := Some Pending;
      loadPromise := Some 0%nat;
      loads := [{| url := url; onProgress := cb; stage := AwaitInit |}];
      log := [] |}).
Proof. reflexivity. Qed.

Lemma turn_init browser d d' url cb lp events :
  indexedDB_open browser d = inr d' ->
  advance browser 0
    {| database := d; db := None; initPromise := Some Pending; loadPromise := lp;
       loads := [{| url := url; onProgress := cb; stage := AwaitInit |}];
       log := events |}
  = {| database := d'; db := Some connection; initPromise := Some (Fulfilled ());
       loadPromise := lp;
       loads := [{| url := url; onProgress := cb; stage := AwaitCount |}];
       log := events |}.
Proof.
  intros Hopen.
  unfold advance, advance_load, open_fires, init_promise, set_stage, opened,
    with_loads.
  cbn. rewrite Hopen. reflexivity.
Qed.

Lemma turn_count_hit browser d' store url cb lp events :
  responses d' = Some store -> (0 < size store)%nat ->
  advance browser 0
    {| database := d'; db := Some connection; initPromise := Some (Fulfilled ());
       loadPromise := lp;
       loads := [{| url := url; onProgress := cb; stage := AwaitCount |}];
       log := events |}
  = {| database := d'; db := Some connection; initPromise := Some (Fulfilled ());
       loadPromise := lp;
       loads := [{| url := url; onProgress := cb; stage := Settled (Fulfilled ()) |}];
       log := events ++
              (if cb then [Progress (size store) (size store) (Some true)] else []) |}.
Proof.
  intros Hstore Hpos.
  unfold advance, advance_load, count, await_init, open_fires, init, init_promise.
  cbn. rewrite Hstore.
  destruct (size store) as [|k]; [lia|].
  unfold set_stage, report, logged, with_loads. destruct cb; cbn.
  - reflexivity.
  - now rewrite app_nil_r.
Qed.

Lemma turn_count_miss browser d' url cb lp events :
  responses d' = Some ∅ ->
  advance browser 0
    {| database := d'; db := Some connection; initPromise := Some (Fulfilled ());
       loadPromise := lp;
       loads := [{| url := url; onProgress := cb; stage := AwaitCount |}];
       log := events |}
  = {| database := d'; db := Some connection; initPromise := Some (Fulfilled ());
       loadPromise := lp;
       loads := [{| url := url; onProgress := cb; stage := AwaitFetch |}];
       log := events ++ [Fetch url] |}.
Proof.
  intros Hstore.
  unfold advance, advance_load, count, await_init, open_fires, init, init_promise.
  cbn.
  rewrite Hstore, map_size_empty.
  unfold set_stage, logged, with_loads. reflexivity.
Qed.

Lemma turn_fetch browser (w : World) url cb response :
  loads w = [{| url := url; onProgress := cb; stage := AwaitFetch |}] ->
  fetch browser url = Some response -> ok response = true ->
  advance browser 0 w
  = with_loads [{| url := url; onProgress := cb; stage := AwaitJson response |}] w.
Proof.
  intros Hloads Hfetch Hok.
  unfold advance, advance_load, set_stage. rewrite Hloads. cbn.
  now rewrite Hfetch, Hok.
Qed.

Lemma turn_json browser (w : World) url cb response data store :
  loads w = [{| url := url; onProgress := cb; stage := AwaitJson response |}] ->
  json response = Some data -> responses (database w) = Some store ->
  advance browser 0 w
  = with_loads [{| url := url; onProgress := cb; stage := AwaitTransaction data |}]
      (logged (put_all cb (length data) data 0) w).
Proof.
  intros Hloads Hjson Hstore.
  unfold advance, advance_load, set_stage. rewrite Hloads. cbn.
  now rewrite Hjson, Hstore, Hloads.
Qed.

Lemma turn_commit browser (w : World) url cb data :
  loads w = [{| url := url; onProgress := cb; stage := AwaitTransaction data |}] ->
  transaction_end browser = oncomplete ->
  advance browser 0 w
  = with_loads [{| url := url; onProgress := cb; stage := Settled (Fulfilled ()) |}]
      (report cb (Progress (length data) (length data) None) (commit data w)).
Proof.
  intros Hloads Hend.
  unfold advance, advance_load, set_stage. rewrite Hloads. cbn. rewrite Hend.
  f_equal. unfold report, commit.
  destruct cb, (responses (database w)); cbn; now rewrite Hloads.
Qed.

(** The world after a first load on a fresh page whose database opens as
    [d'] with an empty store, the fetch answers [data] and the transaction
    completes. *)
Definition loaded (d' : Database) (url : string) (onProgress : bool)
    (data : list ResponseData) : World :=
  {| database := {| version := version d';
                    responses := Some (foldl put ∅ data) |};
     db := Some connection;
     initPromise := Some (Fulfilled ());
     loadPromise := Some 0%nat;
     loads := [{| url := url; onProgress := onProgress;
                  stage := Settled (Fulfilled ()) |}];
     log := ([Fetch url] ++ put_all onProgress (length data) data 0) ++
            (if onProgress then [Progress (length data) (length data) None] else []) |}.

Lemma first_load_runs browser d d' url onProgress response data :
  indexedDB_open browser d = inr d' -> responses d' = Some ∅ ->
  fetch browser url = Some response -> ok response = true ->
  json response = Some data -> transaction_end browser = oncomplete ->
  run browser 0 5 (snd (loadFromFile url onProgress (page_load d)))
  = loaded d' url onProgress data.
Proof.
  intros Hopen Hstore Hfetch Hok Hjson Hend.
  rewrite loadFromFile_first. cbn [snd].
  rewrite run_S, (turn_init _ _ _ _ _ _ _ Hopen).
  rewrite run_S, (turn_count_miss _ _ _ _ _ _ Hstore).
  rewrite run_S. erewrite turn_fetch; [|reflexivity|exact Hfetch|exact Hok].
  rewrite run_S. erewrite turn_json; [|reflexivity|exact Hjson|exact Hstore].
  rewrite run_S. erewrite turn_commit; [|reflexivity|exact Hend].
  cbn [run].
  unfold loaded, commit, report, logged, with_loads, with_database.
  cbn [database db initPromise loadPromise loads log responses version].
  rewrite Hstore.
  destruct onProgress;
    cbn [database db initPromise loadPromise loads log responses version app];
    rewrite ?app_nil_r; reflexivity.
Qed.

(** C5.  On a fresh page whose database opens with [N > 0] records, the
    load is settled after the [count()]: it has reported [(N, N, true)] once
    if a callback was given, has fetched nothing and has put nothing, and
    does nothing more. *)
Theorem load_cache_hit (browser : Browser) (d d' : Database)
    (store : gmap Z ResponseData) (url : string) (onProgress : bool) :
  indexedDB_open browser d = inr d' -> responses d' = Some store ->
  (0 < size store)%nat ->
  let n := fst (loadFromFile url onProgress (page_load d)) in
  let w := run browser n 2 (snd (loadFromFile url onProgress (page_load d))) in
  promise_of n w = Fulfilled () /\
  log w = (if onProgress
           then [Progress (size store) (size store) (Some true)] else []) /\
  fetches (log w) = [] /\ puts (log w) = [] /\
  database w = d' /\
  forall turns, run browser n turns w = w.
Proof.
  intros Hopen Hstore Hpos. cbv zeta.
  rewrite loadFromFile_first. cbn [fst snd].
  rewrite run_S, (turn_init _ _ _ _ _ _ _ Hopen).
  rewrite run_S, (turn_count_hit _ _ _ _ _ _ _ Hstore Hpos).
  cbn [run log app]. repeat split; try (destruct onProgress; reflexivity).
  intros turns. apply run_settled. discriminate.
Qed.

(** A record with the id [n], and a browser in which everything works and
    the payload is [data]. *)
Definition record (n : Z) : ResponseData :=
  {| RD.i := n; RD.p := "prompt"; RD.r := "response"; RD.t := []; RD.c := [];
     RD.lp := None; RD.lp2 := None; RD.g := None; RD.a := None; RD.x := None |}.

Definition online (data : list ResponseData) : Browser :=
  {| open_request := None;
     fetch := fun _ => Some {| ok := true; statusText := "OK"; json := Some data |};
     transaction_end := oncomplete |}.

(** A database of an earlier session, with three records. *)
Definition cached : Database :=
  {| version := DB_VERSION;
     responses := Some (foldl put ∅ [record 1; record 2; record 3]) |}.

(** A browser profile where the database does not exist yet. *)
Definition no_database : Database := {| version := 0; responses := None |}.

Lemma load_cache_hit_witness :
  let w := run (online []) 0 2
             (snd (loadFromFile "/responses_all_with_logprobs.json" true
                     (page_load cached))) in
  promise_of 0 w = Fulfilled () /\ log w = [Progress 3 3 (Some true)].
Proof.
  destruct (load_cache_hit (online []) cached cached
              (foldl put ∅ [record 1; record 2; record 3])
              "/responses_all_with_logprobs.json" true eq_refl eq_refl)
    as (H1 & H2 & _).
  - vm_compute. lia.
  - split; [exact H1 | exact H2].
Defined.

(** C4.  Whenever a second call of [loadFromFile] comes after a first one
    (in flight after any number of turns, or finished), it returns the
    promise of the first and changes nothing: there is one load.  When that
    load goes through (the database opens empty, the fetch answers [data],
    the transaction completes) there has been one fetch and one write pass,
    and [count()] is the number of distinct ids of [data]. *)
Theorem concurrent_load_is_one_load (browser : Browser) (d : Database)
    (url1 url2 : string) (cb1 cb2 : bool) (turns1 turns2 : nat) :
  let first := loadFromFile url1 cb1 (page_load d) in
  let w2 := run browser (fst first) turns1 (snd first) in
  let second := loadFromFile url2 cb2 w2 in
  let w4 := run browser (fst first) turns2 (snd second) in
  fst second = fst first /\ snd second = w2 /\ length (loads w4) = 1%nat /\
  forall d' response data,
    indexedDB_open browser d = inr d' -> responses d' = Some ∅ ->
    fetch browser url1 = Some response -> ok response = true ->
    json response = Some data -> transaction_end browser = oncomplete ->
    (5 <= turns1 + turns2)%nat ->
    promise_of (fst first) w4 = Fulfilled () /\
    fetches (log w4) = [url1] /\
    puts (log w4) = data /\
    fst (count browser w4) = Fulfilled (length (remove_dups (map RD.i data))).
Proof.
  cbv zeta.
  set (w1 := snd (loadFromFile url1 cb1 (page_load d))).
  change (fst (loadFromFile url1 cb1 (page_load d))) with 0%nat.
  destruct (run_keeps browser 0 turns1 w1) as [Hpromise Hloads].
  rewrite (loadFromFile_attaches url2 cb2 _ 0%nat) by exact Hpromise.
  simpl fst. simpl snd.
  split; [reflexivity|]. split; [reflexivity|]. split.
  - destruct (run_keeps browser 0 turns2 (run browser 0 turns1 w1)) as [_ H].
    now rewrite H, Hloads.
  - intros d' response data Hopen Hstore Hfetch Hok Hjson Hend Hturns.
    rewrite <- run_add.
    replace (turns1 + turns2)%nat with (5 + (turns1 + turns2 - 5))%nat by lia.
    rewrite run_add. unfold w1.
    rewrite (first_load_runs _ _ _ _ _ _ _ Hopen Hstore Hfetch Hok Hjson Hend).
    rewrite run_settled by discriminate.
    split; [reflexivity|]. split; [|split].
    + unfold loaded, fetches. simpl. rewrite omap_app.
      fold (fetches (put_all cb1 (length data) data 0)).
      rewrite fetches_put_all. now destruct cb1.
    + unfold loaded, puts. simpl. rewrite omap_app.
      fold (puts (put_all cb1 (length data) data 0)).
      rewrite puts_put_all. destruct cb1; simpl; now rewrite app_nil_r.
    + unfold count, await_init, open_fires, init, init_promise, loaded. simpl.
      now rewrite size_put_all_empty.
Qed.

Lemma concurrent_load_is_one_load_witness :
  let data := [record 1; record 2; record 2; record 3] in
  let first := loadFromFile "/responses.json" true (page_load no_database) in
  let w2 := run (online data) (fst first) 1 (snd first) in
  let second := loadFromFile "/responses.json" true w2 in
  let w4 := run (online data) (fst first) 4 (snd second) in
  fst second = fst first /\
  fetches (log w4) = ["/responses.json"] /\
  fst (count (online data) w4) = Fulfilled 3%nat.
Proof.
  cbv zeta.
  destruct (concurrent_load_is_one_load
              (online [record 1; record 2; record 2; record 3]) no_database
              "/responses.json" "/responses.json" true true 1 4)
    as (Hsame & _ & _ & Hrun).
  split; [exact Hsame|].
  destruct (Hrun {| version := DB_VERSION; responses := Some ∅ |} _ _
              eq_refl eq_refl eq_refl eq_refl eq_refl eq_refl (le_n 5))
    as (_ & Hfetch & _ & Hcount).
  split; [exact Hfetch | exact Hcount].
Defined.

End ResponseDB.


(* ===================================================================== *)
(** ** confidenceMetrics.ts: what the normalisations keep *)
(* ===================================================================== *)

Module Normalization.

Import Metrics.
Local Open Scope Q_scope.









End Normalization.

(* ===================================================================== *)
(** ** confidenceMetrics.ts: percentiles as a function of the rank *)
(* ===================================================================== *)

Module Percentile.

Import Metrics.
Local Open Scope Q_scope.

Lemma sorted_lookup_le (sorted : list Q) : StronglySorted Qle sorted ->
  forall i j a b, (i <= j)%nat -> sorted !! i = Some a -> sorted !! j = Some b ->
  a <= b.
Proof.
  induction 1 as [|w rest Hrest IH Hw]; intros i j a b Hij Hi Hj.
  - now rewrite lookup_nil in Hi.
  - destruct i as [|i], j as [|j]; simpl in Hi, Hj.
    + injection Hi as <-. injection Hj as <-. apply Qle_refl.
    + injection Hi as <-. rewrite List.Forall_forall in Hw. apply Hw.
      apply list_elem_of_In. eapply list_elem_of_lookup_2, Hj.
    + lia.
    + apply (IH i j); [lia | assumption..].
Qed.

Lemma at_index_Some sorted index v :
  at_index sorted index = Some v ->
  (0 <= index)%Z /\ sorted !! Z.to_nat index = Some v.
Proof.
  unfold at_index. destruct (Z.ltb_spec index 0); [discriminate|]. auto.
Qed.

(** X3.  A higher percentile never gives a smaller value, and the percentile [0]
    of a non-empty sequence is its minimum. *)
Theorem computePercentile_monotone (values : list Q) (p q : Q) :
  (p <= q ->
   forall a b, computePercentile values p = Some a ->
               computePercentile values q = Some b -> a <= b) /\
  (values <> [] ->
   exists v, computePercentile values 0 = Some v /\ In v values /\
             forall w, In w values -> v <= w).
Proof.
  split.
  - intros Hpq a b Ha Hb. unfold computePercentile in *. cbv zeta in *.
    apply at_index_Some in Ha as [Ha0 Ha]. apply at_index_Some in Hb as [Hb0 Hb].
    refine (sorted_lookup_le _ (sort_ascending_sorted values) _ _ _ _ _ Ha Hb).
    apply Z2Nat.inj_le; [assumption..|].
    apply Qfloor_resp_le.
    assert (0 <= inject_Z (Z.of_nat (length (sort_ascending values)))) as Hn.
    { change 0 with (inject_Z 0). rewrite <- Zle_Qle. lia. }
    nra.
  - intros Hne. unfold computePercentile, at_index. cbv zeta.
    assert (Qfloor (inject_Z (Z.of_nat (length (sort_ascending values))) * 0) = 0%Z)
      as -> by (rewrite Qmult_0_r; reflexivity).
    simpl.
    pose proof (sort_ascending_perm values) as Hperm.
    pose proof (sort_ascending_sorted values) as Hsorted.
    destruct (sort_ascending values) as [|v rest].
    + apply Permutation_nil in Hperm. congruence.
    + exists v. split; [reflexivity|]. split.
      * apply (Permutation_in _ Hperm). now left.
      * intros w Hw. apply (Permutation_in _ (Permutation_sym Hperm)) in Hw.
        inversion Hsorted as [|? ? _ Hall]; subst.
        destruct Hw as [<-|Hw]; [apply Qle_refl|].
        rewrite List.Forall_forall in Hall. now apply Hall.
Qed.

Lemma computePercentile_monotone_witness :
  (forall a b, computePercentile [5; 1; 4; 2; 3] 0.05 = Some a ->
               computePercentile [5; 1; 4; 2; 3] 0.95 = Some b -> a <= b) /\
  (exists v, computePercentile [5; 1; 4; 2; 3] 0 = Some v /\ In v [5; 1; 4; 2; 3] /\
             forall w, In w [5; 1; 4; 2; 3] -> v <= w).
Proof.
  destruct (computePercentile_monotone [5; 1; 4; 2; 3] 0.05 0.95) as [Hmono _].
  destruct (computePercentile_monotone [5; 1; 4; 2; 3] 0 0) as [_ Hmin].
  split; [apply Hmono; discriminate | apply Hmin; discriminate].
Defined.

End Percentile.

(* ===================================================================== *)
(** ** confidenceMetrics.ts: the records of [computeTokenMetrics] *)
(* ===================================================================== *)

Module TokenMetricsLaws.

Import Metrics.
Local Open Scope Q_scope.

Abbreviation gapsOf logprobs logprobs2 :=
  (imap (fun (i : nat) (lp : Q) => computeGap lp <$> logprobs2 !! i) logprobs).

Abbreviation scoresOf logprobs :=
  (match Math_max (map computeSurprisal logprobs) with
   | Some maxSurprisal =>
       map (fun s => computeConfidence s maxSurprisal) (map computeSurprisal logprobs)
   | None => []
   end).

(** The three normalised arrays, by mode. *)
Definition normalizedBy (mode : NormalizationMode) (stats : option GlobalStats)
    (logprobs gaps nss ngs ncs : list Q) : Prop :=
  match mode, stats with
  | global, Some st =>
      nss = normalizeGlobal (map computeSurprisal logprobs)
              (surprisal_p5 st) (surprisal_p95 st) /\
      ngs = normalizeGlobal gaps (gap_p5 st) (gap_p95 st) /\
      ncs = match Math_max (map computeSurprisal logprobs) with
            | Some maxSurprisal =>
                normalizeGlobal (scoresOf logprobs)
                  (computeConfidence (surprisal_p95 st) maxSurprisal)
                  (computeConfidence (surprisal_p5 st) maxSurprisal)
            | None => []
            end
  | global, None => False
  | local, _ =>
      nss = normalizeLocal (map computeSurprisal logprobs) /\
      ngs = normalizeLocal gaps /\
      ncs = normalizeLocal (scoresOf logprobs)
  end.

Lemma computeTokenMetrics_unfold Math_exp tokens (logprobs logprobs2 : list Q) mode
    metric stats :
  (mode = global /\ stats = None /\
   computeTokenMetrics Math_exp tokens logprobs logprobs2 mode metric stats
   = Throws "Global stats required for global normalization") \/
  ((mode = local \/ stats <> None) /\
   mapM (fun o => o) (gapsOf logprobs logprobs2) = None /\
   computeTokenMetrics Math_exp tokens logprobs logprobs2 mode metric stats
   = NaNFields) \/
  (exists gaps nss ngs ncs,
     mapM (fun o => o) (gapsOf logprobs logprobs2) = Some gaps /\
     normalizedBy mode stats logprobs gaps nss ngs ncs /\
     computeTokenMetrics Math_exp tokens logprobs logprobs2 mode metric stats
     = collect (imap (buildMetrics Math_exp logprobs logprobs2
                        (map computeSurprisal logprobs) (scoresOf logprobs)
                        gaps nss ncs ngs) tokens)).
Proof.
  unfold computeTokenMetrics, normalizedBy. cbv zeta.
  destruct mode, stats as [st|];
    try (left; repeat split; reflexivity);
    destruct (mapM _ _) as [gaps|];
    try (right; left; split; [|split]; [auto; right; discriminate|reflexivity..]);
    right; right; do 4 eexists; (split; [reflexivity|]); split;
    try reflexivity; repeat split.
Qed.

Lemma gaps_lookup (logprobs logprobs2 gaps : list Q) i g :
  mapM (fun o => o) (gapsOf logprobs logprobs2) = Some gaps ->
  gaps !! i = Some g ->
  exists lp lp2, logprobs !! i = Some lp /\ logprobs2 !! i = Some lp2 /\
                 g = computeGap lp lp2.
Proof.
  intros Hm Hg. apply mapM_Some in Hm.
  destruct (Forall2_lookup_r _ _ _ _ _ Hm Hg) as (o & Ho & ->).
  rewrite list_lookup_imap in Ho.
  destruct (logprobs !! i) as [lp|]; [|discriminate].
  simpl in Ho. injection Ho as Ho.
  destruct (logprobs2 !! i) as [lp2|]; [|discriminate].
  simpl in Ho. injection Ho as <-. eauto.
Qed.

Lemma gaps_length (logprobs logprobs2 gaps : list Q) :
  mapM (fun o => o) (gapsOf logprobs logprobs2) = Some gaps ->
  length gaps = length logprobs.
Proof.
  intros Hm. apply mapM_Some, Forall2_length in Hm.
  now rewrite length_imap in Hm.
Qed.

Lemma gaps_defined (logprobs logprobs2 : list Q) :
  (length logprobs <= length logprobs2)%nat ->
  is_Some (mapM (fun o => o) (gapsOf logprobs logprobs2)).
Proof.
  intros Hlen. apply mapM_is_Some, Forall_lookup. intros i o Ho.
  rewrite list_lookup_imap in Ho.
  destruct (logprobs !! i) as [lp|] eqn:Hlp; [|discriminate].
  simpl in Ho. injection Ho as <-.
  apply lookup_lt_Some in Hlp.
  destruct (lookup_lt_is_Some_2 logprobs2 i) as [lp2 ->]; [lia|].
  simpl. eauto.
Qed.

Lemma scoresOf_length logprobs : length (scoresOf logprobs) = length logprobs.
Proof.
  destruct (Math_max (map computeSurprisal logprobs)) eqn:E.
  - now rewrite !length_map.
  - destruct logprobs; [reflexivity | discriminate].
Qed.

Lemma normalizedBy_lengths mode stats logprobs gaps nss ngs ncs :
  length gaps = length logprobs ->
  normalizedBy mode stats logprobs gaps nss ngs ncs ->
  length nss = length logprobs /\ length ngs = length logprobs /\
  length ncs = length logprobs.
Proof.
  intros Hg. unfold normalizedBy.
  pose proof (scoresOf_length logprobs) as Hscores.
  destruct mode, stats as [st|]; try tauto; intros (-> & -> & ->);
    rewrite ?normalizeLocal_length, ?normalizeGlobal_length, ?length_map;
    try auto.
  split; [reflexivity|]. split; [assumption|].
  destruct (Math_max (map computeSurprisal logprobs)) eqn:E.
  - now rewrite normalizeGlobal_length.
  - destruct logprobs; [reflexivity | discriminate].
Qed.


Lemma buildMetrics_record Math_exp logprobs logprobs2 surprisals scores gaps
    nss ncs ngs i tok m :
  buildMetrics Math_exp logprobs logprobs2 surprisals scores gaps nss ncs ngs i tok
  = Some m ->
  token m = tok /\ confidence m = Math_exp (logprob m) /\
  logprobs !! i = Some (logprob m) /\ logprobs2 !! i = Some (logprob2 m) /\
  surprisals !! i = Some (surprisal m) /\
  scores !! i = Some (confidenceScore m) /\
  gaps !! i = Some (gap m) /\
  nss !! i = Some (normalizedSurprisal m) /\
  ncs !! i = Some (normalizedConfidence m) /\
  ngs !! i = Some (normalizedGap m).
Proof.
  unfold buildMetrics. intros H. simplify_option_eq. repeat split; auto.
Qed.

Lemma buildMetrics_defined Math_exp logprobs logprobs2 surprisals scores gaps
    nss ncs ngs i tok :
  (i < length logprobs)%nat -> (i < length logprobs2)%nat ->
  (i < length surprisals)%nat -> (i < length scores)%nat ->
  (i < length gaps)%nat -> (i < length nss)%nat -> (i < length ncs)%nat ->
  (i < length ngs)%nat ->
  is_Some (buildMetrics Math_exp logprobs logprobs2 surprisals scores gaps
             nss ncs ngs i tok).
Proof.
  intros H1 H2 H3 H4 H5 H6 H7 H8. unfold buildMetrics.
  apply lookup_lt_is_Some_2 in H1 as [? ->], H2 as [? ->], H3 as [? ->],
    H4 as [? ->], H5 as [? ->], H6 as [? ->], H7 as [? ->], H8 as [? ->].
  simpl. eauto.
Qed.

Lemma returned_record Math_exp (tokens : list string) (logprobs logprobs2 : list Q)
    mode metric stats ms i m :
  computeTokenMetrics Math_exp tokens logprobs logprobs2 mode metric stats
  = Returns ms -> ms !! i = Some m ->
  tokens !! i = Some (token m) /\
  logprobs !! i = Some (logprob m) /\ logprobs2 !! i = Some (logprob2 m) /\
  gap m = computeGap (logprob m) (logprob2 m) /\
  surprisal m = computeSurprisal (logprob m) /\
  confidence m = Math_exp (logprob m).
Proof.
  intros Hret Hm.
  destruct (computeTokenMetrics_unfold Math_exp tokens logprobs logprobs2 mode
              metric stats)
    as [(_ & _ & E) | [(_ & _ & E) | (gaps & nss & ngs & ncs & Hgaps & _ & E)]];
    rewrite E in Hret; try discriminate.
  apply collect_Returns in Hret as [_ Hall].
  destruct (Hall i m Hm) as (tok & Htok & Hb).
  apply buildMetrics_record in Hb as (Ht & Hc & Hlp & Hlp2 & Hs & _ & Hg & _).
  destruct (gaps_lookup _ _ _ _ _ Hgaps Hg) as (lp & lp2 & Ha & Hb & ->).
  rewrite lookup_map, Hlp in Hs. injection Hs as Hs.
  rewrite Hlp in Ha. injection Ha as <-.
  rewrite Hlp2 in Hb. injection Hb as <-.
  subst tok. repeat split; auto.
Qed.

Lemma returns_on_equal_lengths Math_exp (tokens : list string)
    (logprobs logprobs2 : list Q) mode metric stats :
  length tokens = length logprobs -> length logprobs = length logprobs2 ->
  mode = local \/ stats <> None ->
  exists ms,
    computeTokenMetrics Math_exp tokens logprobs logprobs2 mode metric stats
    = Returns ms /\ length ms = length tokens.
Proof.
  intros Htok Hlp Hmode.
  destruct (computeTokenMetrics_unfold Math_exp tokens logprobs logprobs2 mode
              metric stats)
    as [(-> & -> & _) | [(_ & Hnone & _) | (gaps & nss & ngs & ncs & Hgaps & Hnorm & E)]].
  - destruct Hmode; congruence.
  - destruct (gaps_defined logprobs logprobs2) as [? ?]; [lia | congruence].
  - rewrite E.
    pose proof (gaps_length _ _ _ Hgaps) as Hg.
    destruct (normalizedBy_lengths _ _ _ _ _ _ _ Hg Hnorm) as (L1 & L2 & L3).
    unfold collect.
    destruct (mapM_is_Some_2 (fun o : option TokenMetrics => o)
      (imap (buildMetrics Math_exp logprobs logprobs2
               (map computeSurprisal logprobs) (scoresOf logprobs)
               gaps nss ncs ngs) tokens)) as [ms Hms].
    { apply Forall_lookup. intros i o Ho. rewrite list_lookup_imap in Ho.
      destruct (tokens !! i) as [tok|] eqn:Ht; [|discriminate].
      apply lookup_lt_Some in Ht. simpl in Ho. injection Ho as <-.
      apply buildMetrics_defined;
        rewrite ?length_map, ?scoresOf_length; lia. }
    rewrite Hms. exists ms. split; [reflexivity|].
    apply mapM_Some, Forall2_length in Hms. now rewrite length_imap in Hms.
Qed.

(** X4.  [computeTokenMetrics] throws exactly when the mode is ["global"] and no
    statistics are given, whatever the arrays.  Otherwise, on arrays of the
    same length, it returns one record per token, and record [i] carries
    token [i], its two logprobs, their difference as [gap], the surprisal of
    the chosen logprob and [Math.exp] of it as [confidence]. *)
Theorem computeTokenMetrics_records Math_exp (tokens : list string)
    (logprobs logprobs2 : list Q) (mode : NormalizationMode)
    (metric : MetricType) (stats : option GlobalStats) :
  ((exists message,
      computeTokenMetrics Math_exp tokens logprobs logprobs2 mode metric stats
      = Throws message) <-> mode = global /\ stats = None) /\
  (length tokens = length logprobs -> length logprobs = length logprobs2 ->
   mode = local \/ stats <> None ->
   exists ms,
     computeTokenMetrics Math_exp tokens logprobs logprobs2 mode metric stats
     = Returns ms /\ length ms = length tokens) /\
  (forall ms i m,
     computeTokenMetrics Math_exp tokens logprobs logprobs2 mode metric stats
     = Returns ms -> ms !! i = Some m ->
     tokens !! i = Some (token m) /\
     logprobs !! i = Some (logprob m) /\ logprobs2 !! i = Some (logprob2 m) /\
     gap m = computeGap (logprob m) (logprob2 m) /\
     surprisal m = computeSurprisal (logprob m) /\
     confidence m = Math_exp (logprob m)).
Proof.
  split; [|split].
  - destruct (computeTokenMetrics_unfold Math_exp tokens logprobs logprobs2 mode
                metric stats)
      as [(-> & -> & E) | [(Hmode & _ & E) | (gaps & nss & ngs & ncs & _ & Hnorm & E)]];
      rewrite E.
    + split; eauto.
    + split; [intros [? [=]] | intros [-> ->]; destruct Hmode; congruence].
    + split.
      * intros [message Hthrow]. unfold collect in Hthrow.
        destruct (mapM (fun o : option TokenMetrics => o) _); discriminate.
      * intros [-> ->]. destruct Hnorm.
  - apply returns_on_equal_lengths.
  - intros ms i m. apply returned_record.
Qed.

Lemma computeTokenMetrics_records_witness :
  exists ms,
    computeTokenMetrics (fun _ => 0) ["a"; "b"]%string [-1; -3] [-2; -5]
      local metric_gap None = Returns ms /\ length ms = 2%nat.
Proof.
  destruct (computeTokenMetrics_records (fun _ => 0) ["a"; "b"]%string
              [-1; -3] [-2; -5] local metric_gap None) as (_ & Htotal & _).
  destruct Htotal as (ms & Hms & Hlen); [reflexivity | reflexivity | now left |].
  exists ms. split; [exact Hms | exact Hlen].
Defined.



End TokenMetricsLaws.

(* ===================================================================== *)
(** ** confidenceMetrics.ts: confidence against surprisal in local mode *)
(* ===================================================================== *)

Module LocalScores.

Import Metrics Normalization TokenMetricsLaws.
Local Open Scope Q_scope.









End LocalScores.

(* ===================================================================== *)
(** ** Colours: [getMetricColor] and the earlier [getConfidenceColor] *)
(* ===================================================================== *)

From stdpp Require Import pretty.

Module Colors.

Import Metrics.
Local Open Scope Q_scope.

(** [Math.round]: the nearest integer, halves upwards. *)
Definition Math_round (v : Q) : Z := Qfloor (v + 0.5).

(** The three channels of a colour, and the string [`rgb(${r}, ${g}, ${b})`]. *)
Record RGB := { red : Z; green : Z; blue : Z }.

Definition rgb (c : RGB) : string :=
  "rgb(" +:+ pretty (red c) +:+ ", " +:+ pretty (green c) +:+ ", " +:+
  pretty (blue c) +:+ ")".

(** The channels [getMetricColor(normalizedValue, metric)] computes. *)
Definition metricChannels (normalizedValue : Q) (metric : MetricType) : RGB :=
  let colorValue :=
    match metric with
    | metric_surprisal => 1 - normalizedValue
    | _ => normalizedValue
    end in
  if Qltb 0.66 colorValue then
    let t := (colorValue - 0.66) / 0.34 in
    {| red := Math_round (119 * (1 - t) + 34 * t);
       green := Math_round (221 * (1 - t) + 197 * t);
       blue := Math_round (119 * (1 - t) + 94 * t) |}
  else if Qltb 0.33 colorValue then
    let t := (colorValue - 0.33) / 0.33 in
    {| red := Math_round (255 * (1 - t) + 119 * t);
       green := Math_round (235 * (1 - t) + 221 * t);
       blue := Math_round (59 * (1 - t) + 119 * t) |}
  else
    let t := colorValue / 0.33 in
    {| red := Math_round 255;
       green := Math_round (107 * (1 - t) + 235 * t);
       blue := Math_round (107 * (1 - t) + 59 * t) |}.

Definition getMetricColor (normalizedValue : Q) (metric : MetricType) : string :=
  rgb (metricChannels normalizedValue metric).

(** [getConfidenceColor(confidence)] of the earlier detail view. *)
Definition confidenceChannels (confidence : Q) : RGB :=
  let c := Math_max2 0 (Math_min2 1 confidence) in
  if Qle_bool 0.5 c then
    let ratio := (c - 0.5) * 2 in
    {| red := Math_round (34 + (234 - 34) * (1 - ratio));
       green := Math_round (197 + (179 - 197) * (1 - ratio));
       blue := Math_round (94 + (8 - 94) * (1 - ratio)) |}
  else
    let ratio := c * 2 in
    {| red := Math_round (239 + (234 - 239) * ratio);
       green := Math_round (68 + (179 - 68) * ratio);
       blue := Math_round (68 + (8 - 68) * ratio) |}.

Definition getConfidenceColor (confidence : Q) : string :=
  rgb (confidenceChannels confidence).

(** [getConfidence(c)]: the bucket of a token. *)
Inductive Bucket := low | medium | high.

Definition getConfidence (c : Q) : Bucket :=
  let v := Math_max2 0 (Math_min2 1 c) in
  if Qle_bool 0.5 v then high
  else if Qle_bool 0.25 v then medium
  else low.

Definition bucket_rank (b : Bucket) : nat :=
  match b with low => 0 | medium => 1 | high => 2 end.

Definition in_byte (n : Z) : Prop := (0 <= n <= 255)%Z.

Lemma Math_round_between (lo hi : Z) (v : Q) :
  inject_Z lo <= v -> v <= inject_Z hi -> (lo <= Math_round v <= hi)%Z.
Proof.
  intros Hlo Hhi. unfold Math_round. split.
  - rewrite <- (Qfloor_Z lo). apply Qfloor_resp_le. lra.
  - apply Z.lt_succ_r. rewrite Zlt_Qlt.
    apply Qle_lt_trans with (v + 0.5); [apply Qfloor_le|].
    unfold Z.succ. rewrite inject_Z_plus. change (inject_Z 1) with 1. lra.
Qed.

Lemma Math_round_proper (u v : Q) : u == v -> Math_round u = Math_round v.
Proof. intros E. unfold Math_round. now rewrite E. Qed.


Lemma clamp_spec v :
  let c := Math_max2 0 (Math_min2 1 v) in
  0 <= c <= 1 /\ (v <= 0 -> c == 0) /\ (1 <= v -> c == 1) /\
  (0 <= v <= 1 -> c == v).
Proof.
  cbv zeta.
  destruct (Math_min2_spec 1 v) as (A & B & [C|C]);
    destruct (Math_max2_spec 0 (Math_min2 1 v)) as (D & F & [G|G]);
    rewrite G, ?C in *; repeat split; intros; lra.
Qed.

Lemma clamp_mono u v :
  u <= v -> Math_max2 0 (Math_min2 1 u) <= Math_max2 0 (Math_min2 1 v).
Proof.
  intros Huv.
  destruct (Math_min2_spec 1 u) as (A & B & [C|C]);
    destruct (Math_min2_spec 1 v) as (A' & B' & [C'|C']);
    destruct (Math_max2_spec 0 (Math_min2 1 u)) as (D & F & [G|G]);
    destruct (Math_max2_spec 0 (Math_min2 1 v)) as (D' & F' & [G'|G']);
    rewrite G, G', ?C, ?C' in *; lra.
Qed.

Local Ltac channel Ht :=
  apply (Math_round_between 0 255); unfold inject_Z; destruct Ht; lra.

(** X9.  For a normalised value in [[0,1]], whatever the metric, the three
    channels of [getMetricColor] are integers between 0 and 255. *)
Theorem metricChannels_in_range (normalizedValue : Q) (metric : MetricType) :
  0 <= normalizedValue <= 1 ->
  in_byte (red (metricChannels normalizedValue metric)) /\
  in_byte (green (metricChannels normalizedValue metric)) /\
  in_byte (blue (metricChannels normalizedValue metric)).
Proof.
  intros Hv. unfold metricChannels, in_byte.
  set (colorValue := match metric with
                     | metric_surprisal => 1 - normalizedValue
                     | _ => normalizedValue
                     end).
  assert (0 <= colorValue <= 1) as Hc by (unfold colorValue; destruct metric; lra).
  cbv zeta.
  destruct (Qltb 0.66 colorValue) eqn:E1.
  - apply Qltb_lt in E1.
    assert (0 <= (colorValue - 0.66) / 0.34 <= 1) as Ht.
    { split; [apply Qle_shift_div_l | apply Qle_shift_div_r]; lra. }
    set (t := (colorValue - 0.66) / 0.34) in *.
    cbn [red green blue]. split; [|split]; channel Ht.
  - apply Qltb_ge in E1. destruct (Qltb 0.33 colorValue) eqn:E2.
    + apply Qltb_lt in E2.
      assert (0 <= (colorValue - 0.33) / 0.33 <= 1) as Ht.
      { split; [apply Qle_shift_div_l | apply Qle_shift_div_r]; lra. }
      set (t := (colorValue - 0.33) / 0.33) in *.
      cbn [red green blue]. split; [|split]; channel Ht.
    + apply Qltb_ge in E2.
      assert (0 <= colorValue / 0.33 <= 1) as Ht.
      { split; [apply Qle_shift_div_l | apply Qle_shift_div_r]; lra. }
      set (t := colorValue / 0.33) in *.
      cbn [red green blue]. split; [|split]; channel Ht.
Qed.

Lemma metricChannels_in_range_witness :
  in_byte (red (metricChannels 0.8 metric_surprisal)) /\
  in_byte (green (metricChannels 0.8 metric_surprisal)) /\
  in_byte (blue (metricChannels 0.8 metric_surprisal)).
Proof. apply metricChannels_in_range. split; discriminate. Defined.

(** X10.  [getConfidenceColor] clamps first: for every input, in [[0,1]] or
    not, the channels are between 0 and 255; every input of at least 1
    gets the green of 1 and every input of at most 0 the red of 0. *)
Theorem confidenceChannels_clamped (confidence : Q) :
  (in_byte (red (confidenceChannels confidence)) /\
   in_byte (green (confidenceChannels confidence)) /\
   in_byte (blue (confidenceChannels confidence))) /\
  (1 <= confidence ->
   confidenceChannels confidence = {| red := 34; green := 197; blue := 94 |}) /\
  (confidence <= 0 ->
   confidenceChannels confidence = {| red := 239; green := 68; blue := 68 |}).
Proof.
  destruct (clamp_spec confidence) as (Hc & Hlow & Hhigh & _).
  unfold confidenceChannels, in_byte. cbv zeta in *.
  set (c := Math_max2 0 (Math_min2 1 confidence)) in *.
  split; [|split].
  - destruct (Qle_bool 0.5 c) eqn:E.
    + apply Qle_bool_iff in E. cbn [red green blue].
      split; [|split]; channel Hc.
    + assert (c < 0.5) by (apply Qltb_lt; unfold Qltb; now rewrite E).
      cbn [red green blue].
      split; [|split]; channel Hc.
  - intros H. specialize (Hhigh H).
    assert (Qle_bool 0.5 c = true) as -> by (apply Qle_bool_iff; lra).
    f_equal; (etransitivity; [apply Math_round_proper; rewrite Hhigh; reflexivity|]);
      reflexivity.
  - intros H. specialize (Hlow H).
    assert (Qle_bool 0.5 c = false) as ->.
    { destruct (Qle_bool 0.5 c) eqn:E; [|reflexivity].
      apply Qle_bool_iff in E. lra. }
    f_equal; (etransitivity; [apply Math_round_proper; rewrite Hlow; reflexivity|]);
      reflexivity.
Qed.

Lemma confidenceChannels_clamped_witness :
  confidenceChannels 7 = {| red := 34; green := 197; blue := 94 |} /\
  confidenceChannels (-2) = {| red := 239; green := 68; blue := 68 |}.
Proof.
  destruct (confidenceChannels_clamped 7) as (_ & Hhigh & _).
  destruct (confidenceChannels_clamped (-2)) as (_ & _ & Hlow).
  split; [apply Hhigh | apply Hlow]; discriminate.
Defined.

(** X11.  The bucket never goes down when the confidence goes up, and it is
    ["high"] from 0.5, ["medium"] from 0.25 and ["low"] below, the clamp to
    [[0,1]] making no difference. *)
Theorem getConfidence_buckets (c1 c2 : Q) :
  (c1 <= c2 -> (bucket_rank (getConfidence c1) <= bucket_rank (getConfidence c2))%nat) /\
  (getConfidence c1 = high <-> 0.5 <= c1) /\
  (getConfidence c1 = medium <-> 0.25 <= c1 < 0.5) /\
  (getConfidence c1 = low <-> c1 < 0.25).
Proof.
  assert (forall c, (getConfidence c = high <-> 0.5 <= c) /\
                    (getConfidence c = medium <-> 0.25 <= c < 0.5) /\
                    (getConfidence c = low <-> c < 0.25)) as Hchar.
  { intros c. destruct (clamp_spec c) as (Hv & Hlo & Hhi & Hmid).
    unfold getConfidence. cbv zeta in *.
    set (v := Math_max2 0 (Math_min2 1 c)) in *.
    assert (v < 0.5 <-> c < 0.5) as H5.
    { destruct (Qlt_le_dec c 0) as [|H0]; [specialize (Hlo ltac:(lra)); lra|].
      destruct (Qlt_le_dec 1 c) as [|H1]; [specialize (Hhi ltac:(lra)); lra|].
      specialize (Hmid (conj H0 H1)). lra. }
    assert (v < 0.25 <-> c < 0.25) as H25.
    { destruct (Qlt_le_dec c 0) as [|H0]; [specialize (Hlo ltac:(lra)); lra|].
      destruct (Qlt_le_dec 1 c) as [|H1]; [specialize (Hhi ltac:(lra)); lra|].
      specialize (Hmid (conj H0 H1)). lra. }
    destruct (Qle_bool 0.5 v) eqn:E5.
    - apply Qle_bool_iff in E5.
      repeat split; try discriminate; intros; try lra.
    - assert (v < 0.5) by (apply Qltb_lt; unfold Qltb; now rewrite E5).
      destruct (Qle_bool 0.25 v) eqn:E25.
      + apply Qle_bool_iff in E25.
        repeat split; try discriminate; intros; try lra.
      + assert (v < 0.25) by (apply Qltb_lt; unfold Qltb; now rewrite E25).
        repeat split; try discriminate; intros; try lra. }
  destruct (Hchar c1) as (H1 & H2 & H3). repeat split; try tauto.
  intros Hle. destruct (Hchar c2) as (H1' & H2' & H3').
  destruct (getConfidence c1) eqn:E1, (getConfidence c2) eqn:E2; simpl; try lia;
    exfalso;
    repeat match goal with
           | H : _ = _ <-> _ |- _ => destruct H
           end;
    repeat match goal with
           | H : ?b = ?b -> _ |- _ => specialize (H eq_refl)
           end; lra.
Qed.

Lemma getConfidence_buckets_witness :
  (bucket_rank (getConfidence 0.3) <= bucket_rank (getConfidence 0.7))%nat.
Proof.
  destruct (getConfidence_buckets 0.3 0.7) as [Hmono _].
  apply Hmono. discriminate.
Defined.

End Colors.

(* ===================================================================== *)
(** ** responseDB.ts: what a load leaves behind *)
(* ===================================================================== *)

Module LoadOutcomes.

Import ResponseDB.

(** The record of the payload that is stored under [id]: the last one with
    that id, as [put] overwrites. *)
Fixpoint lastWithId (id : Z) (data : list ResponseData) : option ResponseData :=
  match data with
  | [] => None
  | item :: rest =>
      match lastWithId id rest with
      | Some later => Some later
      | None => if (RD.i item =? id)%Z then Some item else None
      end
  end.

Lemma lookup_put_all id (data : list ResponseData) :
  forall store : gmap Z ResponseData,
  foldl put store data !! id =
  match lastWithId id data with
  | Some item => Some item
  | None => store !! id
  end.
Proof.
  induction data as [|item rest IH]; intros store; simpl; [reflexivity|].
  rewrite IH. destruct (lastWithId id rest); [reflexivity|].
  unfold put. destruct (Z.eqb_spec (RD.i item) id) as [->|Hne].
  - apply lookup_insert_eq.
  - now apply lookup_insert_ne.
Qed.

Lemma lastWithId_Some id data item :
  lastWithId id data = Some item ->
  RD.i item = id /\
  exists before after,
    data = before ++ item :: after /\ Forall (fun r => RD.i r <> id) after.
Proof.
  induction data as [|first rest IH]; simpl; [discriminate|].
  destruct (lastWithId id rest) as [later|] eqn:E.
  - intros [= ->]. destruct (IH eq_refl) as (Hid & before & after & -> & Hafter).
    split; [exact Hid|]. exists (first :: before), after. split; [reflexivity|exact Hafter].
  - destruct (Z.eqb_spec (RD.i first) id) as [Hid|]; [|discriminate].
    intros [= <-]. split; [exact Hid|]. exists [], rest. split; [reflexivity|].
    clear IH. induction rest as [|r rest IH]; [constructor|].
    simpl in E. destruct (lastWithId id rest); [discriminate|].
    destruct (Z.eqb_spec (RD.i r) id); [discriminate|].
    constructor; [assumption | now apply IH].
Qed.

Lemma lastWithId_None id data :
  lastWithId id data = None <-> ~ In id (map RD.i data).
Proof.
  induction data as [|first rest IH]; simpl; [tauto|].
  destruct (lastWithId id rest) as [later|].
  - split; [discriminate|]. intros H. exfalso. apply H. right.
    destruct IH as [_ IH]. destruct (in_dec Z.eq_dec id (map RD.i rest)); [assumption|].
    now specialize (IH n).
  - destruct (Z.eqb_spec (RD.i first) id) as [Hid|Hne].
    + split; [discriminate|]. intros H. exfalso. apply H. now left.
    + split; [|reflexivity]. intros _ [H|H]; [congruence|].
      destruct IH as [IH _]. now apply IH.
Qed.

(** X12.  After a first load that goes through, [get(id)] is fulfilled for every
    id: with the last record of the payload that has this id, or with [null]
    when the payload has none.  It leaves the world as it is. *)
Theorem get_after_load (browser : Browser) (d d' : Database) (url : string)
    (onProgress : bool) (response : Response) (data : list ResponseData) (id : Z) :
  indexedDB_open browser d = inr d' -> responses d' = Some ∅ ->
  fetch browser url = Some response -> ok response = true ->
  json response = Some data -> transaction_end browser = oncomplete ->
  let w := run browser 0 5 (snd (loadFromFile url onProgress (page_load d))) in
  get browser id w = (Fulfilled (lastWithId id data), w) /\
  (lastWithId id data = None <-> ~ In id (map RD.i data)) /\
  (forall item, lastWithId id data = Some item ->
     RD.i item = id /\
     exists before after,
       data = before ++ item :: after /\ Forall (fun r => RD.i r <> id) after).
Proof.
  intros Hopen Hstore Hfetch Hok Hjson Hend. cbv zeta.
  rewrite (first_load_runs _ _ _ _ _ _ _ Hopen Hstore Hfetch Hok Hjson Hend).
  split; [|split].
  - rewrite (get_lookup browser id (loaded d' url onProgress data)
               (foldl put ∅ data) eq_refl eq_refl eq_refl).
    rewrite lookup_put_all, lookup_empty.
    now destruct (lastWithId id data).
  - apply lastWithId_None.
  - apply lastWithId_Some.
Qed.

Lemma get_after_load_witness :
  let data := [record 1; record 2; record 2; record 3] in
  let w := run (online data) 0 5
             (snd (loadFromFile "/responses.json" true (page_load no_database))) in
  fst (get (online data) 2 w) = Fulfilled (Some (record 2)) /\
  fst (get (online data) 9 w) = Fulfilled None.
Proof.
  cbv zeta.
  destruct (get_after_load (online [record 1; record 2; record 2; record 3])
              no_database {| version := DB_VERSION; responses := Some ∅ |}
              "/responses.json" true _ _ 2
              eq_refl eq_refl eq_refl eq_refl eq_refl eq_refl) as (H2 & _).
  destruct (get_after_load (online [record 1; record 2; record 2; record 3])
              no_database {| version := DB_VERSION; responses := Some ∅ |}
              "/responses.json" true _ _ 9
              eq_refl eq_refl eq_refl eq_refl eq_refl eq_refl) as (H9 & _).
  split; [now rewrite H2 | now rewrite H9].
Defined.

(** The calls of [onProgress], in order. *)
Definition reports (events : list Event) : list (nat * nat * option bool) :=
  omap (fun e => match e with Progress l t c => Some (l, t, c) | _ => None end) events.

(** The counts at which the loop of a load reports: the multiples of 100
    among [first, first + 1, ..., first + n - 1]. *)
Definition hundreds (first n : nat) : list nat :=
  List.filter (fun k => (k mod 100 =? 0)%nat) (seq first n).

Lemma reports_put_all total data : forall loaded,
  reports (put_all true total data loaded)
  = map (fun k => (k, total, None)) (hundreds (S loaded) (length data)).
Proof.
  induction data as [|item rest IH]; intros loaded; [reflexivity|].
  cbn [put_all length]. unfold hundreds. cbn [seq List.filter].
  unfold reports in *. cbn [omap list_omap]. rewrite omap_app, IH.
  rewrite andb_true_r. unfold hundreds.
  destruct (S loaded mod 100 =? 0)%nat; reflexivity.
Qed.

Lemma reports_put_all_silent total data : forall loaded,
  reports (put_all false total data loaded) = [].
Proof.
  induction data as [|item rest IH]; intros loaded; [reflexivity|].
  cbn [put_all]. unfold reports in *. cbn [omap list_omap].
  rewrite omap_app, IH, andb_false_r. reflexivity.
Qed.

(** X13.  A first load that goes through reports, when it has a callback,
    [(100, total)], [(200, total)], ... for every full hundred of records,
    and then [(total, total)] once more on completion; none of these has
    [fromCache] set.  Every reported count is at most [total].  Without a
    callback nothing is reported. *)
Theorem load_progress_reports (browser : Browser) (d d' : Database) (url : string)
    (onProgress : bool) (response : Response) (data : list ResponseData) :
  indexedDB_open browser d = inr d' -> responses d' = Some ∅ ->
  fetch browser url = Some response -> ok response = true ->
  json response = Some data -> transaction_end browser = oncomplete ->
  let w := run browser 0 5 (snd (loadFromFile url onProgress (page_load d))) in
  let total := length data in
  reports (log w) =
    (if onProgress
     then map (fun k => (k, total, None)) (hundreds 1 total) ++ [(total, total, None)]
     else []) /\
  forall loaded t c, In (loaded, t, c) (reports (log w)) ->
    (loaded <= total)%nat /\ t = total /\ c = None.
Proof.
  intros Hopen Hstore Hfetch Hok Hjson Hend. cbv zeta.
  rewrite (first_load_runs _ _ _ _ _ _ _ Hopen Hstore Hfetch Hok Hjson Hend).
  assert (reports (log (loaded d' url onProgress data)) =
    (if onProgress
     then map (fun k => (k, length data, None)) (hundreds 1 (length data)) ++
          [(length data, length data, None)]
     else [])) as E.
  { unfold loaded. cbn [log]. unfold reports. rewrite !omap_app. cbn [omap list_omap app].
    fold (reports (put_all onProgress (length data) data 0)).
    destruct onProgress.
    - now rewrite reports_put_all.
    - now rewrite reports_put_all_silent. }
  split; [exact E|]. rewrite E. intros n t c Hin.
  destruct onProgress; [|destruct Hin].
  apply in_app_iff in Hin as [Hin|[[= <- <- <-]|[]]]; [|auto].
  apply in_map_iff in Hin as (k & [= <- <- <-] & Hk).
  split; [|auto]. unfold hundreds in Hk. apply filter_In in Hk as [Hk _].
  apply in_seq in Hk. lia.
Qed.

Lemma load_progress_reports_witness :
  let data := map record (map Z.of_nat (seq 0 250)) in
  let w := run (online data) 0 5
             (snd (loadFromFile "/responses.json" true (page_load no_database))) in
  reports (log w) = [(100, 250, None); (200, 250, None); (250, 250, None)]%nat.
Proof.
  cbv zeta.
  destruct (load_progress_reports
              (online (map record (map Z.of_nat (seq 0 250)))) no_database
              {| version := DB_VERSION; responses := Some ∅ |}
              "/responses.json" true _ _
              eq_refl eq_refl eq_refl eq_refl eq_refl eq_refl) as [E _].
  rewrite E. vm_compute. reflexivity.
Defined.

End LoadOutcomes.

(* ===================================================================== *)
(** ** responseDB.ts: loads that fail, and stores of an earlier schema *)
(* ===================================================================== *)

Module LoadFailures.

Import ResponseDB LoadOutcomes.

Lemma turn_init_fails browser d e url cb lp events :
  indexedDB_open browser d = inl e ->
  advance browser 0
    {| database := d; db := None; initPromise := Some Pending; loadPromise := lp;
       loads := [{| url := url; onProgress := cb; stage := AwaitInit |}];
       log := events |}
  = {| database := d; db := None; initPromise := Some (Rejected e);
       loadPromise := lp;
       loads := [{| url := url; onProgress := cb; stage := Settled (Rejected e) |}];
       log := events |}.
Proof.
  intros Hopen.
  unfold advance, advance_load, open_fires, init_promise, set_stage,
    with_initPromise, with_loads.
  cbn. rewrite Hopen. reflexivity.
Qed.

Lemma turn_fetch_refused browser (w : World) url cb response :
  loads w = [{| url := url; onProgress := cb; stage := AwaitFetch |}] ->
  fetch browser url = Some response -> ok response = false ->
  advance browser 0 w
  = with_loads [{| url := url; onProgress := cb;
                   stage := Settled (Rejected
                     (Error ("Failed to fetch: " ++ statusText response))) |}] w.
Proof.
  intros Hloads Hfetch Hok.
  unfold advance, advance_load, set_stage. rewrite Hloads. cbn.
  now rewrite Hfetch, Hok.
Qed.

(** X14.  When the server answers the fetch with a status that is not ok, the
    load is rejected with ["Failed to fetch: " + statusText] and nothing is
    written.  The rejected promise stays in [loadPromise]: calling
    [loadFromFile] again on the same page returns it and fetches nothing. *)
Theorem refused_fetch_is_final (browser : Browser) (d d' : Database)
    (url : string) (onProgress : bool) (response : Response) :
  indexedDB_open browser d = inr d' -> responses d' = Some ∅ ->
  fetch browser url = Some response -> ok response = false ->
  let w := run browser 0 3 (snd (loadFromFile url onProgress (page_load d))) in
  promise_of 0 w
    = Rejected (Error ("Failed to fetch: " ++ statusText response)) /\
  log w = [Fetch url] /\ database w = d' /\
  forall url2 cb2 turns,
    fst (loadFromFile url2 cb2 w) = 0%nat /\
    run browser 0 turns (snd (loadFromFile url2 cb2 w)) = w.
Proof.
  intros Hopen Hstore Hfetch Hok. cbv zeta.
  rewrite loadFromFile_first. cbn [snd].
  rewrite run_S, (turn_init _ _ _ _ _ _ _ Hopen).
  rewrite run_S, (turn_count_miss _ _ _ _ _ _ Hstore).
  rewrite run_S. erewrite turn_fetch_refused; [|reflexivity|exact Hfetch|exact Hok].
  cbn [run]. repeat split.
  rewrite (loadFromFile_attaches url2 cb2 _ 0%nat) by reflexivity.
  cbn [snd]. apply run_settled. discriminate.
Qed.

Lemma refused_fetch_is_final_witness :
  let browser := {| open_request := None;
                    fetch := fun _ => Some {| ok := false; statusText := "Not Found";
                                              json := None |};
                    transaction_end := oncomplete |} in
  let w := run browser 0 3
             (snd (loadFromFile "/responses.json" true (page_load no_database))) in
  promise_of 0 w = Rejected (Error "Failed to fetch: Not Found") /\
  fst (loadFromFile "/responses.json" true w) = 0%nat.
Proof.
  cbv zeta.
  destruct (refused_fetch_is_final
              {| open_request := None;
                 fetch := fun _ => Some {| ok := false; statusText := "Not Found";
                                           json := None |};
                 transaction_end := oncomplete |}
              no_database {| version := DB_VERSION; responses := Some ∅ |}
              "/responses.json" true _ eq_refl eq_refl eq_refl eq_refl)
    as (Hpromise & _ & _ & Hagain).
  split; [exact Hpromise|].
  exact (proj1 (Hagain "/responses.json" true 0%nat)).
Defined.

(** X15.  When the database cannot be opened, the load is rejected with the
    error of the open request before anything is fetched, and [get] is
    rejected with the same error. *)
Theorem open_failure_fails_load (browser : Browser) (d : Database) (e : Thrown)
    (url : string) (onProgress : bool) (id : Z) :
  indexedDB_open browser d = inl e ->
  let w := run browser 0 1 (snd (loadFromFile url onProgress (page_load d))) in
  promise_of 0 w = Rejected e /\ log w = [] /\ database w = d /\
  fst (get browser id w) = Rejected e /\
  forall turns, run browser 0 turns w = w.
Proof.
  intros Hopen. cbv zeta.
  rewrite loadFromFile_first. cbn [snd].
  rewrite run_S, (turn_init_fails _ _ _ _ _ _ _ Hopen). cbn [run].
  repeat split. intros turns. apply run_settled. discriminate.
Qed.

Lemma open_failure_fails_load_witness :
  let browser := {| open_request := Some "InvalidStateError";
                    fetch := fun _ => None; transaction_end := oncomplete |} in
  promise_of 0 (run browser 0 1
                  (snd (loadFromFile "/responses.json" true (page_load cached))))
  = Rejected (DOMException "InvalidStateError").
Proof.
  cbv zeta.
  exact (proj1 (open_failure_fails_load
                  {| open_request := Some "InvalidStateError";
                     fetch := fun _ => None; transaction_end := oncomplete |}
                  cached (DOMException "InvalidStateError")
                  "/responses.json" true 0 eq_refl)).
Defined.

(** X16.  A database left by version 1 of the schema is never a cache: whatever
    records it holds, the load fetches the payload, and afterwards the store
    holds the payload only. *)
Theorem version_1_store_is_reloaded (browser : Browser) (d : Database)
    (url : string) (onProgress : bool) (response : Response)
    (data : list ResponseData) (id : Z) :
  open_request browser = None -> version d = 1%Z ->
  fetch browser url = Some response -> ok response = true ->
  json response = Some data -> transaction_end browser = oncomplete ->
  let w := run browser 0 5 (snd (loadFromFile url onProgress (page_load d))) in
  promise_of 0 w = Fulfilled () /\ fetches (log w) = [url] /\
  version (database w) = DB_VERSION /\
  fst (get browser id w) = Fulfilled (lastWithId id data) /\
  fst (count browser w) = Fulfilled (length (remove_dups (map RD.i data))).
Proof.
  intros Hreq Hv Hfetch Hok Hjson Hend. cbv zeta.
  pose proof (open_version_1_wipes browser d Hreq Hv) as Hopen.
  rewrite (first_load_runs browser d _ url onProgress response data Hopen
             eq_refl Hfetch Hok Hjson Hend).
  split; [reflexivity|]. split; [|split; [reflexivity|split]].
  - unfold loaded, fetches. cbn [log]. rewrite !omap_app.
    fold (fetches (put_all onProgress (length data) data 0)).
    rewrite fetches_put_all. now destruct onProgress.
  - rewrite (get_lookup browser id
               (loaded {| version := DB_VERSION; responses := Some ∅ |} url
                  onProgress data)
               (foldl put ∅ data) eq_refl eq_refl eq_refl).
    cbn [fst]. rewrite lookup_put_all, lookup_empty.
    now destruct (lastWithId id data).
  - unfold count, await_init, open_fires, init, init_promise, loaded. cbn.
    now rewrite size_put_all_empty.
Qed.

Lemma version_1_store_is_reloaded_witness :
  let old := {| version := 1; responses := Some (foldl put ∅ [record 7; record 8]) |} in
  let w := run (online [record 1]) 0 5
             (snd (loadFromFile "/responses.json" false (page_load old))) in
  fst (get (online [record 1]) 7 w) = Fulfilled None /\
  fst (count (online [record 1]) w) = Fulfilled 1%nat.
Proof.
  cbv zeta.
  destruct (version_1_store_is_reloaded (online [record 1])
              {| version := 1; responses := Some (foldl put ∅ [record 7; record 8]) |}
              "/responses.json" false _ _ 7
              eq_refl eq_refl eq_refl eq_refl eq_refl eq_refl)
    as (_ & _ & _ & Hget & Hcount).
  split; [exact Hget | exact Hcount].
Defined.

End LoadFailures.

(* ===================================================================== *)
(** ** responseDB.ts: [clear()] and a second load *)
(* ===================================================================== *)

Module Reload.

Import ResponseDB LoadOutcomes.

(** Normalise a world built by the update functions to a record. *)
Ltac world :=
  cbv [set_stage with_loads with_loadPromise with_database with_initPromise
       logged report opened commit init
       database db initPromise loadPromise loads log
       url onProgress stage
       insert list_insert lookup list_lookup fst snd].

Lemma second_load_runs browser (base : Database) (first : Load)
    (events : list Event) url cb response data :
  responses base = Some ∅ ->
  fetch browser url = Some response -> ok response = true ->
  json response = Some data -> transaction_end browser = oncomplete ->
  run browser 1 5
    (snd (loadFromFile url cb
            {| database := base; db := Some connection;
               initPromise := Some (Fulfilled ()); loadPromise := None;
               loads := [first]; log := events |}))
  = {| database := {| version := version base;
                      responses := Some (foldl put ∅ data) |};
       db := Some connection; initPromise := Some (Fulfilled ());
       loadPromise := Some 1%nat;
       loads := [first; {| url := url; onProgress := cb;
                           stage := Settled (Fulfilled ()) |}];
       log := ((events ++ [Fetch url]) ++ put_all cb (length data) data 0) ++
              (if cb then [Progress (length data) (length data) None] else []) |}.
Proof.
  intros Hstore Hfetch Hok Hjson Hend.
  unfold loadFromFile. world. cbn [length app].
  rewrite run_S. unfold advance. world. unfold advance_load. world.
  unfold open_fires, init_promise. world.
  rewrite run_S. unfold advance. world. unfold advance_load. world.
  unfold count, await_init, open_fires, init_promise. world.
  rewrite Hstore, map_size_empty. cbn [Nat.ltb Nat.leb]. world.
  rewrite run_S. unfold advance. world. unfold advance_load. world.
  rewrite Hfetch, Hok. world.
  rewrite run_S. unfold advance. world. unfold advance_load. world.
  rewrite Hjson, Hstore. world.
  rewrite run_S. unfold advance. world. unfold advance_load. world.
  rewrite Hend, Hstore. cbn [run].
  destruct cb; world; cbn [length]; rewrite ?app_nil_r; reflexivity.
Qed.

Lemma clear_loaded browser d' url cb data :
  clear browser (loaded d' url cb data)
  = (Fulfilled (),
     {| database := {| version := version d'; responses := Some ∅ |};
        db := Some connection; initPromise := Some (Fulfilled ());
        loadPromise := None;
        loads := [{| url := url; onProgress := cb;
                     stage := Settled (Fulfilled ()) |}];
        log := log (loaded d' url cb data) |}).
Proof. reflexivity. Qed.

Lemma reports_app (a b : list Event) : reports (a ++ b) = reports a ++ reports b.
Proof. apply omap_app. Qed.

Lemma fetches_app (a b : list Event) : fetches (a ++ b) = fetches a ++ fetches b.
Proof. apply omap_app. Qed.

Lemma no_cache_report_put_all cb total data loaded l t c :
  In (l, t, c) (reports (put_all cb total data loaded)) -> c = None.
Proof.
  destruct cb.
  - rewrite reports_put_all. intros H.
    apply in_map_iff in H as (k & [= _ _ <-] & _). reflexivity.
  - now rewrite reports_put_all_silent.
Qed.

(** X17.  After a load, [clear()] empties the store ([count()] is 0) and forgets
    the load promise: the next [loadFromFile] is a new load, which fetches
    again, reports no cache hit, and leaves the records of what it fetched. *)
Theorem clear_then_load_refetches (browser : Browser) (d d' : Database)
    (url1 url2 : string) (cb1 cb2 : bool) (response1 response2 : Response)
    (data1 data2 : list ResponseData) :
  indexedDB_open browser d = inr d' -> responses d' = Some ∅ ->
  fetch browser url1 = Some response1 -> ok response1 = true ->
  json response1 = Some data1 ->
  fetch browser url2 = Some response2 -> ok response2 = true ->
  json response2 = Some data2 ->
  transaction_end browser = oncomplete ->
  let w := run browser 0 5 (snd (loadFromFile url1 cb1 (page_load d))) in
  let cleared := clear browser w in
  let again := loadFromFile url2 cb2 (snd cleared) in
  let w' := run browser (fst again) 5 (snd again) in
  fst cleared = Fulfilled () /\
  fst (count browser (snd cleared)) = Fulfilled 0%nat /\
  fst again = 1%nat /\
  promise_of 1 w' = Fulfilled () /\
  fetches (log w') = [url1; url2] /\
  (forall l t c, In (l, t, c) (reports (log w')) -> c = None) /\
  fst (count browser w') = Fulfilled (length (remove_dups (map RD.i data2))).
Proof.
  intros Hopen Hstore Hf1 Hok1 Hj1 Hf2 Hok2 Hj2 Hend. cbv zeta.
  rewrite (first_load_runs _ _ _ _ _ _ _ Hopen Hstore Hf1 Hok1 Hj1 Hend).
  rewrite clear_loaded. cbn [fst snd].
  split; [reflexivity|].
  split; [unfold count, await_init, open_fires, init, init_promise; cbn;
          now rewrite map_size_empty|].
  split; [reflexivity|].
  change (fst (loadFromFile url2 cb2 _)) with 1%nat.
  rewrite (second_load_runs browser
             {| version := version d'; responses := Some ∅ |} _ _ url2 cb2
             response2 data2 eq_refl Hf2 Hok2 Hj2 Hend).
  split; [reflexivity|]. split; [|split].
  - cbn [log loaded]. rewrite !fetches_app, !fetches_put_all.
    destruct cb1, cb2; reflexivity.
  - cbn [log loaded]. intros l t c. rewrite !reports_app, !in_app_iff.
    intros [[[[[H|H]|H]|H]|H]|H].
    + destruct H.
    + eapply no_cache_report_put_all, H.
    + destruct cb1; [destruct H as [[= _ _ <-]|[]]; reflexivity | destruct H].
    + destruct H.
    + eapply no_cache_report_put_all, H.
    + destruct cb2; [destruct H as [[= _ _ <-]|[]]; reflexivity | destruct H].
  - unfold count, await_init, open_fires, init, init_promise. cbn.
    now rewrite size_put_all_empty.
Qed.

Lemma clear_then_load_refetches_witness :
  let browser := online [record 1; record 2; record 3] in
  let w := run browser 0 5
             (snd (loadFromFile "/responses.json" true (page_load no_database))) in
  let again := loadFromFile "/responses.json" true (snd (clear browser w)) in
  let w' := run browser (fst again) 5 (snd again) in
  fst again = 1%nat /\
  fetches (log w') = ["/responses.json"; "/responses.json"] /\
  fst (count browser w') = Fulfilled 3%nat.
Proof.
  cbv zeta.
  destruct (clear_then_load_refetches (online [record 1; record 2; record 3])
              no_database {| version := DB_VERSION; responses := Some ∅ |}
              "/responses.json" "/responses.json" true true _ _ _ _
              eq_refl eq_refl eq_refl eq_refl eq_refl eq_refl eq_refl eq_refl
              eq_refl)
    as (_ & _ & Hagain & _ & Hfetch & _ & Hcount).
  split; [exact Hagain|]. split; [exact Hfetch | exact Hcount].
Defined.

End Reload.

(* ===================================================================== *)
(** ** EmbeddingVisualization.tsx: the filter controls *)
(* ===================================================================== *)

Module FilterState.

Import Filter.
Local Open Scope Q_scope.

(** The three pieces of state the filter reads. *)
Record Controls := {
  activeClusters : gset Z;
  correctnessFilter : CorrectnessFilterType;
  confidenceRange : Q * Q
}.

Definition visible (data : list DataPoint) (c : Controls) : list DataPoint :=
  filteredData data (activeClusters c) (correctnessFilter c) (confidenceRange c).

(** [handleToggleCluster(cluster)]: the updater given to
    [setActiveClusters]. *)
Definition handleToggleCluster (cluster : Z) (prev : gset Z) : gset Z :=
  if bool_decide (cluster ∈ prev) then prev ∖ {[ cluster ]} else prev ∪ {[ cluster ]}.

(** [confidenceDataRange]: the extent of the confidences that are there,
    [[0, 1]] when there is none. *)
Definition confidenceDataRange (data : list DataPoint) : Q * Q :=
  match data with
  | [] => (0, 1)
  | _ =>
      let confidences := omap avgConfidence data in
      match Metrics.Math_min confidences, Metrics.Math_max confidences with
      | Some min, Some max => (min, max)
      | _, _ => (0, 1)
      end
  end.

(** [handleResetView], as far as the filters go (it also resets the zoom). *)
Definition handleResetView (data : list DataPoint) : Controls :=
  {| activeClusters := list_to_set (map cluster data);
     correctnessFilter := all;
     confidenceRange := confidenceDataRange data |}.

Lemma filter_all_true {A} (f : A -> bool) (l : list A) :
  (forall a, In a l -> f a = true) -> List.filter f l = l.
Proof.
  induction l as [|a l IH]; intros H; simpl; [reflexivity|].
  rewrite (H a (or_introl eq_refl)). f_equal. apply IH. intros b Hb. apply H. now right.
Qed.

Lemma filter_sublist {A} (f : A -> bool) (l : list A) : sublist (List.filter f l) l.
Proof.
  induction l as [|a l IH]; simpl; [constructor|].
  destruct (f a); now constructor.
Qed.

Lemma confidenceDataRange_covers data d c :
  In d data -> avgConfidence d = Some c ->
  fst (confidenceDataRange data) <= c <= snd (confidenceDataRange data).
Proof.
  intros Hd Hc.
  assert (In c (omap avgConfidence data)) as Hin.
  { apply list_elem_of_In, list_elem_of_omap. exists d.
    split; [now apply list_elem_of_In | exact Hc]. }
  unfold confidenceDataRange. destruct data as [|d0 rest]; [destruct Hd|].
  set (confidences := omap avgConfidence (d0 :: rest)) in *.
  destruct (Metrics.Math_min confidences) as [mn|] eqn:Hmin;
    [|destruct confidences; [destruct Hin | discriminate]].
  destruct (Metrics.Math_max confidences) as [mx|] eqn:Hmax;
    [|destruct confidences; [destruct Hin | discriminate]].
  apply Metrics.Math_min_spec in Hmin as [_ Hmin].
  apply Metrics.Math_max_spec in Hmax as [_ Hmax].
  cbn [fst snd]. split; auto.
Qed.

(** X18.  After [handleResetView] every point of the data is visible, in the
    order of the data. *)
Theorem handleResetView_shows_all (data : list DataPoint) :
  visible data (handleResetView data) = data.
Proof.
  unfold visible, filteredData. apply filter_all_true. intros d Hd.
  apply keepPoint_spec. unfold handleResetView. cbn. split; [|split].
  - unfold passesCluster. apply elem_of_list_to_set, list_elem_of_In.
    now apply in_map.
  - exact I.
  - unfold passesConfidence. destruct (avgConfidence d) as [c|] eqn:Hc; [|exact I].
    now apply (confidenceDataRange_covers data d c).
Qed.

Lemma elem_of_without (k c : Z) (A : gset Z) : k ∈ A ∖ {[ c ]} <-> k ∈ A /\ k <> c.
Proof. now rewrite elem_of_difference, elem_of_singleton. Qed.

Lemma elem_of_with (k c : Z) (A : gset Z) : k ∈ A ∪ {[ c ]} <-> k ∈ A \/ k = c.
Proof. now rewrite elem_of_union, elem_of_singleton. Qed.

(** X19.  Toggling a cluster twice gives the set back.  Toggling an active
    cluster off hides exactly the visible points of that cluster and keeps
    the others, in their order. *)
Theorem handleToggleCluster_effect (data : list DataPoint) (c : Controls)
    (cluster0 : Z) :
  handleToggleCluster cluster0 (handleToggleCluster cluster0 (activeClusters c))
    = activeClusters c /\
  (cluster0 ∈ activeClusters c ->
   visible data {| activeClusters := handleToggleCluster cluster0 (activeClusters c);
                   correctnessFilter := correctnessFilter c;
                   confidenceRange := confidenceRange c |}
   = List.filter (fun d => negb (cluster d =? cluster0)%Z) (visible data c)).
Proof.
  split.
  - unfold handleToggleCluster.
    destruct (bool_decide_reflect (cluster0 ∈ activeClusters c)) as [Hin|Hout].
    + rewrite bool_decide_eq_false_2 by (rewrite elem_of_without; tauto).
      apply set_eq. intros k. rewrite elem_of_with, elem_of_without.
      destruct (decide (k = cluster0)) as [->|]; tauto.
    + rewrite bool_decide_eq_true_2 by (rewrite elem_of_with; tauto).
      apply set_eq. intros k. rewrite elem_of_without, elem_of_with.
      destruct (decide (k = cluster0)) as [->|]; tauto.
  - intros Hin. unfold visible, filteredData, handleToggleCluster. cbn.
    rewrite bool_decide_eq_true_2 by exact Hin.
    induction data as [|d data IH]; [reflexivity|]. cbn [List.filter].
    rewrite IH.
    assert (keepPoint (activeClusters c ∖ {[cluster0]}) (correctnessFilter c)
              (confidenceRange c) d
            = keepPoint (activeClusters c) (correctnessFilter c)
                (confidenceRange c) d && negb (cluster d =? cluster0)%Z) as ->.
    { unfold keepPoint.
      destruct (Z.eqb_spec (cluster d) cluster0) as [E|E].
      - rewrite (bool_decide_eq_false_2 (cluster d ∈ activeClusters c ∖ {[cluster0]}))
          by (rewrite elem_of_without; tauto).
        cbn. now rewrite andb_false_r.
      - rewrite andb_true_r.
        destruct (bool_decide_reflect (cluster d ∈ activeClusters c)) as [H|H].
        + rewrite (bool_decide_eq_true_2 (cluster d ∈ activeClusters c ∖ {[cluster0]}))
            by (rewrite elem_of_without; tauto).
          reflexivity.
        + rewrite (bool_decide_eq_false_2 (cluster d ∈ activeClusters c ∖ {[cluster0]}))
            by (rewrite elem_of_without; tauto).
          reflexivity. }
    destruct (keepPoint (activeClusters c) (correctnessFilter c) (confidenceRange c) d);
      cbn [andb List.filter]; [|reflexivity].
    now destruct (negb (cluster d =? cluster0)%Z).
Qed.

Lemma handleToggleCluster_effect_witness :
  visible [unscored] {| activeClusters := handleToggleCluster 3 {[ 3%Z ]};
                        correctnessFilter := all; confidenceRange := (0, 1) |}
  = List.filter (fun d => negb (cluster d =? 3)%Z)
      (visible [unscored] {| activeClusters := {[ 3%Z ]};
                             correctnessFilter := all; confidenceRange := (0, 1) |}).
Proof.
  destruct (handleToggleCluster_effect [unscored]
              {| activeClusters := {[ 3%Z ]}; correctnessFilter := all;
                 confidenceRange := (0, 1) |} 3) as [_ H].
  apply H. cbn. apply elem_of_singleton_2. reflexivity.
Defined.

(** X20.  The visible points are a sub-sequence of the data.  Activating more
    clusters or widening the confidence range never hides a visible point,
    and the points shown under ["correct"] and under ["incorrect"] are shown
    under ["all"] and are never the same point. *)
Theorem visible_monotone (data : list DataPoint) (c c' : Controls) (d : DataPoint) :
  sublist (visible data c) data /\
  (activeClusters c ⊆ activeClusters c' ->
   correctnessFilter c' = correctnessFilter c \/ correctnessFilter c' = all ->
   fst (confidenceRange c') <= fst (confidenceRange c) ->
   snd (confidenceRange c) <= snd (confidenceRange c') ->
   In d (visible data c) -> In d (visible data c')) /\
  ~ (In d (filteredData data (activeClusters c) correct (confidenceRange c)) /\
     In d (filteredData data (activeClusters c) incorrect (confidenceRange c))).
Proof.
  split; [apply filter_sublist|]. split.
  - intros Hsub Hf Hlo Hhi. unfold visible, filteredData.
    rewrite !filter_In, !keepPoint_spec.
    intros (Hd & Hc & Hcorr & Hconf). split; [exact Hd|]. split; [|split].
    + unfold passesCluster in *. now apply Hsub.
    + destruct Hf as [-> | ->]; [exact Hcorr | exact I].
    + unfold passesConfidence in *. destruct (avgConfidence d); [lra | exact I].
  - unfold filteredData. rewrite !filter_In, !keepPoint_spec.
    unfold passesCorrectness. intros [(_ & _ & H1 & _) (_ & _ & H0 & _)].
    congruence.
Qed.

Lemma visible_monotone_witness :
  In unscored (visible [unscored]
                 {| activeClusters := {[ 3%Z; 4%Z ]}; correctnessFilter := all;
                    confidenceRange := (0, 1) |}).
Proof.
  destruct (visible_monotone [unscored]
              {| activeClusters := {[ 3%Z ]}; correctnessFilter := all;
                 confidenceRange := (0.5, 1) |}
              {| activeClusters := {[ 3%Z; 4%Z ]}; correctnessFilter := all;
                 confidenceRange := (0, 1) |} unscored) as (_ & H & _).
  apply H; cbn.
  - intros k Hk. apply elem_of_union. now left.
  - now left.
  - discriminate.
  - discriminate.
  - vm_compute. now left.
Defined.

End FilterState.

(* ===================================================================== *)
(** ** EmbeddingVisualization: what can be hovered *)
(* ===================================================================== *)

Module Hover.

Import Filter Picker.
Local Open Scope Q_scope.



End Hover.

(* ===================================================================== *)
(** ** App.tsx: the progress bar *)
(* ===================================================================== *)

Module App.

Import ResponseDB LoadOutcomes Colors.
Local Open Scope Q_scope.

(** [loadProgress] and [isLoadingFromCache]; a progress of [None] is [NaN]. *)
Record LoadState := {
  loadProgress : option Z;
  isLoadingFromCache : bool
}.

(** The state the component starts with. *)
Definition initialState : LoadState :=
  {| loadProgress := Some 0%Z; isLoadingFromCache := false |}.

(** [Math.round((loaded / total) * 100)]; [0 / 0] is [NaN]. *)
Definition percent (loaded total : nat) : option Z :=
  match total with
  | O => None
  | _ => Some (Math_round (inject_Z (Z.of_nat loaded) / inject_Z (Z.of_nat total) * 100))
  end.

(** The callback [App] gives to [loadFromFile]. *)
Definition onProgress (s : LoadState) (report : nat * nat * option bool) : LoadState :=
  let '(loaded, total, fromCache) := report in
  {| loadProgress := percent loaded total;
     isLoadingFromCache :=
       match fromCache with
       | Some true => true
       | _ => isLoadingFromCache s
       end |}.

(** The state after the calls [reports], in order. *)
Definition replay (reports : list (nat * nat * option bool)) : LoadState :=
  fold_left onProgress reports initialState.

Lemma percent_range loaded total :
  (loaded <= total)%nat -> (0 < total)%nat ->
  exists p, percent loaded total = Some p /\ (0 <= p <= 100)%Z.
Proof.
  intros Hle Hpos. unfold percent. destruct total as [|n]; [lia|].
  eexists. split; [reflexivity|].
  set (t := inject_Z (Z.of_nat (S n))).
  set (l := inject_Z (Z.of_nat loaded)).
  assert (0 < t) as Ht by (unfold t; change 0 with (inject_Z 0); rewrite <- Zlt_Qlt; lia).
  assert (0 <= l) as Hl0 by (unfold l; change 0 with (inject_Z 0); rewrite <- Zle_Qle; lia).
  assert (l <= t) as Hlt by (unfold l, t; rewrite <- Zle_Qle; lia).
  destruct (Metrics.Qdiv_unit_interval l t Hl0 Hlt Ht) as [H0 H1].
  apply (Math_round_between 0 100); unfold inject_Z; lra.
Qed.

Lemma percent_full total : (0 < total)%nat -> percent total total = Some 100%Z.
Proof.
  intros Hpos. unfold percent. destruct total as [|n]; [lia|]. f_equal.
  set (t := inject_Z (Z.of_nat (S n))).
  assert (0 < t) as Ht by (unfold t; change 0 with (inject_Z 0); rewrite <- Zlt_Qlt; lia).
  assert (t / t * 100 == 100) as E by (field; lra).
  now rewrite (Math_round_proper _ _ E).
Qed.

Lemma replay_last reports0 loaded total :
  Forall (fun r => snd r = None) reports0 ->
  replay (reports0 ++ [(loaded, total, None)])
  = {| loadProgress := percent loaded total; isLoadingFromCache := false |}.
Proof.
  intros Hall. unfold replay. rewrite fold_left_app. cbn. f_equal.
  assert (forall s, isLoadingFromCache s = false ->
            isLoadingFromCache (fold_left onProgress reports0 s) = false) as H.
  { induction Hall as [|[[l t] c] rest Hc _ IH]; intros s Hs; [exact Hs|].
    cbn [fold_left]. apply IH. cbn in Hc. subst c. exact Hs. }
  now apply H.
Qed.

(** X22.  Every report of a load gives the bar a percentage between 0 and 100.
    After a first load of a non-empty payload the bar is at 100 and the
    cache flag is off; after a cache hit the bar is at 100 and the cache flag
    is on.  After a first load of an empty payload the percentage is [NaN]. *)
Theorem progress_bar (browser : Browser) (d d' : Database) (url : string)
    (response : Response) (data : list ResponseData)
    (store : gmap Z ResponseData) :
  indexedDB_open browser d = inr d' ->
  (responses d' = Some ∅ ->
   fetch browser url = Some response -> ok response = true ->
   json response = Some data -> transaction_end browser = oncomplete ->
   let w := run browser 0 5 (snd (loadFromFile url true (page_load d))) in
   (data <> [] ->
    (forall loaded total c, In (loaded, total, c) (reports (log w)) ->
       exists p, percent loaded total = Some p /\ (0 <= p <= 100)%Z) /\
    replay (reports (log w))
    = {| loadProgress := Some 100%Z; isLoadingFromCache := false |}) /\
   (data = [] ->
    replay (reports (log w))
    = {| loadProgress := None; isLoadingFromCache := false |})) /\
  (responses d' = Some store -> (0 < size store)%nat ->
   let w := run browser 0 2 (snd (loadFromFile url true (page_load d))) in
   replay (reports (log w))
   = {| loadProgress := Some 100%Z; isLoadingFromCache := true |}).
Proof.
  intros Hopen. split.
  - intros Hstore Hfetch Hok Hjson Hend. cbv zeta.
    rewrite (first_load_runs _ _ _ _ _ _ _ Hopen Hstore Hfetch Hok Hjson Hend).
    assert (reports (log (loaded d' url true data))
            = map (fun k => (k, length data, None)) (hundreds 1 (length data)) ++
              [(length data, length data, None)]) as E.
    { unfold loaded. cbn [log]. unfold reports. rewrite !omap_app.
      cbn [omap list_omap app].
      fold (reports (put_all true (length data) data 0)).
      now rewrite reports_put_all. }
    rewrite E.
    assert (Forall (fun r : nat * nat * option bool => snd r = None)
              (map (fun k => (k, length data, None)) (hundreds 1 (length data))))
      as Hnone.
    { apply List.Forall_forall. intros r Hr.
      apply in_map_iff in Hr as (k & <- & _). reflexivity. }
    split.
    + intros Hne.
      assert (0 < length data)%nat as Hpos
        by (destruct data; [congruence | simpl; lia]).
      split.
      * intros l t c Hin.
        apply in_app_iff in Hin as [Hin|[[= <- <- <-]|[]]].
        -- apply in_map_iff in Hin as (k & [= <- <- <-] & Hk).
           unfold hundreds in Hk. apply filter_In in Hk as [Hk _].
           apply in_seq in Hk. apply percent_range; lia.
        -- apply percent_range; lia.
      * rewrite (replay_last _ _ _ Hnone). now rewrite percent_full.
    + intros ->. reflexivity.
  - intros Hstore Hpos. cbv zeta.
    rewrite loadFromFile_first. cbn [snd].
    rewrite run_S, (turn_init _ _ _ _ _ _ _ Hopen).
    rewrite run_S, (turn_count_hit _ _ _ _ _ _ _ Hstore Hpos).
    cbn [run log app]. unfold reports, replay. cbn.
    now rewrite percent_full.
Qed.

Lemma progress_bar_witness :
  replay (reports (log (run (online [record 1; record 2]) 0 5
                          (snd (loadFromFile "/responses.json" true
                                  (page_load no_database))))))
  = {| loadProgress := Some 100%Z; isLoadingFromCache := false |} /\
  replay (reports (log (run (online []) 0 2
                          (snd (loadFromFile "/responses.json" true
                                  (page_load cached))))))
  = {| loadProgress := Some 100%Z; isLoadingFromCache := true |}.
Proof.
  split.
  - destruct (progress_bar (online [record 1; record 2]) no_database
                {| version := DB_VERSION; responses := Some ∅ |}
                "/responses.json"
                {| ok := true; statusText := "OK";
                   json := Some [record 1; record 2] |}
                [record 1; record 2] ∅ eq_refl) as [H _].
    destruct (H eq_refl eq_refl eq_refl eq_refl eq_refl) as [Hfull _].
    apply Hfull. discriminate.
  - destruct (progress_bar (online []) cached cached "/responses.json"
                {| ok := true; statusText := "OK"; json := Some [] |} []
                (foldl put ∅ [record 1; record 2; record 3]) eq_refl) as [_ H].
    apply H; [reflexivity | vm_compute; lia].
Defined.

End App.

(* ===================================================================== *)
(** ** DetailView.tsx *)
(* ===================================================================== *)

From Stdlib Require Import Ascii.

Module DetailView.

Import Metrics Colors.
Local Open Scope Q_scope.

(** [interface ResponseData] of the detail view (long keys). *)
Record ViewData := {
  id : Z;
  prompt : string;
  response : option string;
  tokens : option (list string);
  confidence_scores : option (list Q);
  logprobs : option (list Q);
  logprobs2 : option (list Q);
  isCorrect : option Z
}.

(** The state [fetchPointData] sets: [error] is the error whose message is
    shown. *)
Record ViewState := {
  data : option ViewData;
  loading : bool;
  error : option ResponseDB.Thrown
}.

(** "Convert short keys to full format". *)
Definition fromStored (result : ResponseDB.ResponseData) : ViewData :=
  {| id := ResponseDB.RD.i result;
     prompt := ResponseDB.RD.p result;
     response := Some (ResponseDB.RD.r result);
     tokens := Some (ResponseDB.RD.t result);
     confidence_scores := Some (ResponseDB.RD.c result);
     logprobs := ResponseDB.RD.lp result;
     logprobs2 := ResponseDB.RD.lp2 result;
     isCorrect := ResponseDB.RD.x result |}.

(** [fetchPointData], from the settled promise of [responseDB.get(pointId)];
    the view starts with no data. *)
Definition fetchPointData (pointId : Z)
    (result : ResponseDB.Promise (option ResponseDB.ResponseData)) : ViewState :=
  match result with
  | ResponseDB.Fulfilled (Some stored) =>
      {| data := Some (fromStored stored); loading := false; error := None |}
  | ResponseDB.Fulfilled None =>
      {| data := None; loading := false;
         error := Some (ResponseDB.Error
                          ("No data found for point " +:+ pretty pointId)) |}
  | ResponseDB.Rejected err =>
      {| data := None; loading := false; error := Some err |}
  | ResponseDB.Pending =>
      {| data := None; loading := true; error := None |}
  end.

(** [s.replace(/^\n+/, "")]. *)
Fixpoint stripLeadingNewlines (s : string) : string :=
  match s with
  | String "010"%char rest => stripLeadingNewlines rest
  | _ => s
  end.

(** [response?.replace(/^\n+/, "") || ""]. *)
Definition plainResponse (response : option string) : string :=
  match response with
  | Some text => stripLeadingNewlines text
  | None => ""
  end.

(** What [renderTokens] returns: the plain response, or one coloured span
    per token (text and background colour).  [UndefinedFields] stands for
    spans computed from [undefined] and [NaN], when the arrays of the record
    differ in length. *)
Inductive Rendering :=
| PlainText (text : string)
| Spans (spans : list (string * string))
| UndefinedFields.

(** "Strip leading newlines from first token". *)
Definition stripFirstToken (tokenMetrics : list TokenMetrics) : list TokenMetrics :=
  match tokenMetrics with
  | first :: rest =>
      {| token := stripLeadingNewlines (token first);
         confidence := confidence first; logprob := logprob first;
         logprob2 := logprob2 first; surprisal := surprisal first;
         confidenceScore := confidenceScore first; gap := gap first;
         normalizedSurprisal := normalizedSurprisal first;
         normalizedConfidence := normalizedConfidence first;
         normalizedGap := normalizedGap first |} :: rest
  | [] => []
  end.

(** The value that is coloured, by metric. *)
Definition normalizedValue (metric : MetricType) (m : TokenMetrics) : Q :=
  match metric with
  | metric_surprisal => normalizedSurprisal m
  | metric_confidence => normalizedConfidence m
  | metric_gap => normalizedGap m
  end.

Section Render.

Variable Math_exp : Q -> Q.

(** [renderTokens()], from the state of the component. *)
Definition renderTokens (data : option ViewData) (normMode : NormalizationMode)
    (metric : MetricType) (globalStats : option GlobalStats) : Rendering :=
  match data with
  | None => PlainText ""
  | Some d =>
      match tokens d, logprobs d, logprobs2 d with
      | Some toks, Some lps, Some lps2 =>
          match computeTokenMetrics Math_exp toks lps lps2 normMode metric
                  (match normMode with global => globalStats | local => None end)
          with
          | Returns tokenMetrics =>
              Spans (map (fun tm => (token tm,
                                     getMetricColor (normalizedValue metric tm) metric))
                       (stripFirstToken tokenMetrics))
          | Throws _ => PlainText (plainResponse (response d))   (* caught *)
          | NaNFields => UndefinedFields
          end
      | _, _, _ => PlainText (plainResponse (response d))
      end
  end.

End Render.

Lemma stripLeadingNewlines_no_newline s rest :
  stripLeadingNewlines s <> String "010"%char rest.
Proof.
  induction s as [|ch s IH]; [discriminate|].
  destruct ch as [[] [] [] [] [] [] [] []]; simpl; congruence.
Qed.

(** The texts of the spans: the tokens, the first one without its leading
    newlines. *)
Definition spanTexts (toks : list string) : list string :=
  match toks with
  | first :: rest => stripLeadingNewlines first :: rest
  | [] => []
  end.

Lemma map_token_stripFirstToken ms :
  map token (stripFirstToken ms) = spanTexts (map token ms).
Proof. destruct ms; reflexivity. Qed.

Lemma returned_tokens Math_exp toks lps lps2 mode metric stats ms :
  computeTokenMetrics Math_exp toks lps lps2 mode metric stats = Returns ms ->
  length ms = length toks -> map token ms = toks.
Proof.
  intros Hret Hlen. apply list_eq. intros i. rewrite lookup_map.
  destruct (ms !! i) as [m|] eqn:Hm; simpl.
  - symmetry.
    now destruct (TokenMetricsLaws.returned_record _ _ _ _ _ _ _ _ _ _ Hret Hm).
  - symmetry. apply lookup_ge_None. apply lookup_ge_None in Hm. lia.
Qed.

(** X23.  After a first load that goes through, opening the detail view of a
    point shows the last record of the payload with that id, its short keys
    renamed, and no error; for an id the payload does not have, it shows no
    data and the error ["No data found for point <id>"]. *)
Theorem detail_after_load (browser : ResponseDB.Browser)
    (d d' : ResponseDB.Database) (url : string) (cb : bool)
    (resp : ResponseDB.Response) (payload : list ResponseDB.ResponseData)
    (pointId : Z) :
  ResponseDB.indexedDB_open browser d = inr d' ->
  ResponseDB.responses d' = Some ∅ ->
  ResponseDB.fetch browser url = Some resp -> ResponseDB.ok resp = true ->
  ResponseDB.json resp = Some payload ->
  ResponseDB.transaction_end browser = ResponseDB.oncomplete ->
  let w := ResponseDB.run browser 0 5
             (snd (ResponseDB.loadFromFile url cb (ResponseDB.page_load d))) in
  fetchPointData pointId (fst (ResponseDB.get browser pointId w)) =
    match LoadOutcomes.lastWithId pointId payload with
    | Some stored =>
        {| data := Some (fromStored stored); loading := false; error := None |}
    | None =>
        {| data := None; loading := false;
           error := Some (ResponseDB.Error
                            ("No data found for point " +:+ pretty pointId)) |}
    end /\
  (forall stored, LoadOutcomes.lastWithId pointId payload = Some stored ->
     id (fromStored stored) = pointId /\ In stored payload /\
     prompt (fromStored stored) = ResponseDB.RD.p stored /\
     tokens (fromStored stored) = Some (ResponseDB.RD.t stored)) /\
  (In pointId (map ResponseDB.RD.i payload) ->
   exists stored, LoadOutcomes.lastWithId pointId payload = Some stored).
Proof.
  intros Hopen Hstore Hfetch Hok Hjson Hend. cbv zeta.
  rewrite (ResponseDB.first_load_runs _ _ _ _ _ _ _ Hopen Hstore Hfetch Hok Hjson Hend).
  rewrite (ResponseDB.get_lookup browser pointId (ResponseDB.loaded d' url cb payload)
             (foldl ResponseDB.put ∅ payload) eq_refl eq_refl eq_refl).
  cbn [fst]. rewrite LoadOutcomes.lookup_put_all, lookup_empty.
  split; [|split].
  - now destruct (LoadOutcomes.lastWithId pointId payload).
  - intros stored Hs.
    destruct (LoadOutcomes.lastWithId_Some _ _ _ Hs) as (Hid & before & after & -> & _).
    repeat split; try assumption. apply in_app_iff. right. now left.
  - intros Hin.
    destruct (LoadOutcomes.lastWithId pointId payload) as [stored|] eqn:E; [eauto|].
    apply LoadOutcomes.lastWithId_None in E. contradiction.
Qed.

Lemma detail_after_load_witness :
  let payload := [ResponseDB.record 1; ResponseDB.record 2] in
  let w := ResponseDB.run (ResponseDB.online payload) 0 5
             (snd (ResponseDB.loadFromFile "/responses.json" true
                     (ResponseDB.page_load ResponseDB.no_database))) in
  error (fetchPointData 7 (fst (ResponseDB.get (ResponseDB.online payload) 7 w)))
  = Some (ResponseDB.Error "No data found for point 7") /\
  data (fetchPointData 2 (fst (ResponseDB.get (ResponseDB.online payload) 2 w)))
  = Some (fromStored (ResponseDB.record 2)).
Proof.
  cbv zeta.
  destruct (detail_after_load
              (ResponseDB.online [ResponseDB.record 1; ResponseDB.record 2])
              ResponseDB.no_database
              {| ResponseDB.version := ResponseDB.DB_VERSION;
                 ResponseDB.responses := Some ∅ |}
              "/responses.json" true
              {| ResponseDB.ok := true; ResponseDB.statusText := "OK";
                 ResponseDB.json := Some [ResponseDB.record 1; ResponseDB.record 2] |}
              [ResponseDB.record 1; ResponseDB.record 2] 7
              eq_refl eq_refl eq_refl eq_refl eq_refl eq_refl) as (H7 & _).
  destruct (detail_after_load
              (ResponseDB.online [ResponseDB.record 1; ResponseDB.record 2])
              ResponseDB.no_database
              {| ResponseDB.version := ResponseDB.DB_VERSION;
                 ResponseDB.responses := Some ∅ |}
              "/responses.json" true
              {| ResponseDB.ok := true; ResponseDB.statusText := "OK";
                 ResponseDB.json := Some [ResponseDB.record 1; ResponseDB.record 2] |}
              [ResponseDB.record 1; ResponseDB.record 2] 2
              eq_refl eq_refl eq_refl eq_refl eq_refl eq_refl) as (H2 & _).
  split; [now rewrite H7 | now rewrite H2].
Defined.

(** X24.  [renderTokens] does not fail.  Without tokens or logprobs, and in
    global mode without statistics (where [computeTokenMetrics] throws), it
    falls back to the plain response, which then never starts with a
    newline.  In local mode, or with statistics, on arrays of the same
    length it gives one span per token, with the text of the token, the
    first one without its leading newlines. *)
Theorem renderTokens_fallbacks Math_exp (d : ViewData) (normMode : NormalizationMode)
    (metric : MetricType) (globalStats : option GlobalStats) :
  (tokens d = None \/ logprobs d = None \/ logprobs2 d = None \/
   (normMode = global /\ globalStats = None) ->
   renderTokens Math_exp (Some d) normMode metric globalStats
   = PlainText (plainResponse (response d))) /\
  (forall rest, plainResponse (response d) <> String "010"%char rest) /\
  (forall toks lps lps2,
     tokens d = Some toks -> logprobs d = Some lps -> logprobs2 d = Some lps2 ->
     length toks = length lps -> length lps = length lps2 ->
     normMode = local \/ globalStats <> None ->
     exists spans,
       renderTokens Math_exp (Some d) normMode metric globalStats = Spans spans /\
       map fst spans = spanTexts toks).
Proof.
  split; [|split].
  - unfold renderTokens.
    intros [H|[H|[H|[-> ->]]]]; rewrite ?H;
      destruct (tokens d), (logprobs d), (logprobs2 d); try reflexivity.
  - intros rest. unfold plainResponse. destruct (response d); [|discriminate].
    apply stripLeadingNewlines_no_newline.
  - intros toks lps lps2 Ht Hl Hl2 Hlen1 Hlen2 Hmode.
    unfold renderTokens. rewrite Ht, Hl, Hl2.
    destruct (TokenMetricsLaws.returns_on_equal_lengths Math_exp toks lps lps2
                normMode metric
                (match normMode with global => globalStats | local => None end)
                Hlen1 Hlen2) as (ms & Hms & Hlen).
    { destruct Hmode as [->|H]; [now left|].
      destruct normMode; [now left | now right]. }
    rewrite Hms. eexists. split; [reflexivity|].
    rewrite map_map. cbn [fst].
    change (map (fun x : TokenMetrics => token x) (stripFirstToken ms))
      with (map token (stripFirstToken ms)).
    rewrite map_token_stripFirstToken.
    now rewrite (returned_tokens _ _ _ _ _ _ _ _ Hms Hlen).
Qed.

Lemma renderTokens_fallbacks_witness :
  let d := {| id := 1; prompt := "q"; response := Some (String "010"%char "Answer");
              tokens := Some ["a"; "b"]%string; confidence_scores := None;
              logprobs := Some [-1; -3]; logprobs2 := Some [-2; -5];
              isCorrect := None |} in
  renderTokens (fun _ => 0) (Some d) global metric_gap None = PlainText "Answer" /\
  exists spans,
    renderTokens (fun _ => 0) (Some d) local metric_gap None = Spans spans /\
    map fst spans = ["a"; "b"]%string.
Proof.
  cbv zeta.
  destruct (renderTokens_fallbacks (fun _ => 0)
              {| id := 1; prompt := "q"; response := Some (String "010"%char "Answer");
                 tokens := Some ["a"; "b"]%string; confidence_scores := None;
                 logprobs := Some [-1; -3]; logprobs2 := Some [-2; -5];
                 isCorrect := None |} global metric_gap None) as (Hplain & _ & _).
  destruct (renderTokens_fallbacks (fun _ => 0)
              {| id := 1; prompt := "q"; response := Some (String "010"%char "Answer");
                 tokens := Some ["a"; "b"]%string; confidence_scores := None;
                 logprobs := Some [-1; -3]; logprobs2 := Some [-2; -5];
                 isCorrect := None |} local metric_gap None) as (_ & _ & Hspans).
  split.
  - apply Hplain. right. right. right. now split.
  - apply (Hspans ["a"; "b"]%string [-1; -3] [-2; -5]); try reflexivity. now left.
Defined.





End DetailView.

(* ===================================================================== *)
(** ** confidenceMetrics.ts: the clamp of [computeConfidence] and the
       global band of the confidence *)
(* ===================================================================== *)

Module ConfidenceBand.

Import Metrics TokenMetricsLaws.
Local Open Scope Q_scope.

Lemma computeConfidence_saturates surprisal maxSurprisal :
  0 < maxSurprisal -> maxSurprisal <= surprisal ->
  computeConfidence surprisal maxSurprisal == 0.
Proof.
  intros HM H. unfold computeConfidence. cbv zeta.
  assert (~ maxSurprisal == 0) as HM0 by lra.
  destruct (Math_min2_spec surprisal maxSurprisal) as (A & B & [C|C]); rewrite C.
  - assert (surprisal == maxSurprisal) as -> by (rewrite C in B; lra).
    field. exact HM0.
  - field. exact HM0.
Qed.



Lemma global_normalizedConfidence Math_exp tokens logprobs logprobs2 metric st ms
    maxSurprisal m :
  computeTokenMetrics Math_exp tokens logprobs logprobs2 global metric (Some st)
  = Returns ms ->
  Math_max (map computeSurprisal logprobs) = Some maxSurprisal ->
  In m ms ->
  In (normalizedConfidence m)
    (normalizeGlobal (scoresOf logprobs)
       (computeConfidence (surprisal_p95 st) maxSurprisal)
       (computeConfidence (surprisal_p5 st) maxSurprisal)).
Proof.
  intros Hret HM Hm.
  destruct (computeTokenMetrics_unfold Math_exp tokens logprobs logprobs2 global
              metric (Some st))
    as [(_ & C & _) | [(_ & _ & E) | (gaps & nss & ngs & ncs & _ & Hnorm & E)]];
    [discriminate | rewrite E in Hret; discriminate |].
  rewrite E in Hret. apply collect_Returns in Hret as [_ Hall].
  apply list_elem_of_In, list_elem_of_lookup_1 in Hm as [i Hi].
  destruct (Hall i m Hi) as (tok & _ & Hb).
  apply buildMetrics_record in Hb as (_ & _ & _ & _ & _ & _ & _ & _ & Hc & _).
  destruct Hnorm as (_ & _ & ->). rewrite HM in Hc |- *.
  apply list_elem_of_In. eapply list_elem_of_lookup_2, Hc.
Qed.

(** X8.  In global mode the band of the confidence is built from the surprisal
    percentiles and the largest surprisal of the response.  With
    [surprisal_p5 <= surprisal_p95] the band is in order.  When no surprisal
    of the response exceeds [surprisal_p5], both ends of the band are [0]
    and every normalised confidence of the response is [0.5]. *)
Theorem global_confidence_band Math_exp tokens logprobs logprobs2 metric
    (st : GlobalStats) ms (maxSurprisal : Q) :
  computeTokenMetrics Math_exp tokens logprobs logprobs2 global metric (Some st)
  = Returns ms ->
  Math_max (map computeSurprisal logprobs) = Some maxSurprisal ->
  0 < maxSurprisal ->
  surprisal_p5 st <= surprisal_p95 st ->
  computeConfidence (surprisal_p95 st) maxSurprisal
    <= computeConfidence (surprisal_p5 st) maxSurprisal /\
  (maxSurprisal <= surprisal_p5 st ->
   forall m, In m ms -> normalizedConfidence m = 0.5).
Proof.
  intros Hret HM Hpos Hband. split.
  - now apply computeConfidence_antitone.
  - intros Hlow m Hm.
    pose proof (global_normalizedConfidence _ _ _ _ _ _ _ _ _ Hret HM Hm) as Hin.
    pose proof (computeConfidence_saturates (surprisal_p5 st) maxSurprisal
                  Hpos Hlow) as E5.
    pose proof (computeConfidence_saturates (surprisal_p95 st) maxSurprisal
                  Hpos ltac:(lra)) as E95.
    rewrite normalizeGlobal_degenerate in Hin by (rewrite E5, E95; reflexivity).
    apply in_map_iff in Hin as (? & <- & _). reflexivity.
Qed.

Lemma global_confidence_band_witness :
  exists m ms,
    computeTokenMetrics (fun _ => 0) ["a"; "b"]%string [-1; -3] [-2; -5]
      global metric_confidence
      (Some {| surprisal_p5 := 5; surprisal_p95 := 9; gap_p5 := 0.5; gap_p95 := 4 |})
    = Returns (m :: ms) /\ normalizedConfidence m = 0.5.
Proof.
  assert (exists m ms,
    computeTokenMetrics (fun _ => 0) ["a"; "b"]%string [-1; -3] [-2; -5]
      global metric_confidence
      (Some {| surprisal_p5 := 5; surprisal_p95 := 9; gap_p5 := 0.5; gap_p95 := 4 |})
    = Returns (m :: ms)) as (m & ms & E)
    by (vm_compute; do 2 eexists; reflexivity).
  exists m, ms. split; [exact E|].
  assert (exists M, Math_max (map computeSurprisal [-1; -3]) = Some M /\ 0 < M /\ M <= 5)
    as (M & HM & Hpos & Hlow)
    by (eexists; split; [reflexivity | split; vm_compute; [reflexivity | discriminate]]).
  destruct (global_confidence_band _ _ _ _ _ _ _ _ E HM Hpos) as [_ H];
    [discriminate|].
  apply (H Hlow). now left.
Defined.

End ConfidenceBand.
